(** * sqre-codekit: the GitHub fork and list tools

    A shallow embedding of [codekit/cli/github_fork_repos.py] and
    [github_list_repos.py].  Both scripts are short sequences of GitHub
    API calls and console messages; the embedding makes the calls and the
    messages explicit as a trace, and the Python exceptions explicit as a
    result type. *)

From Stdlib Require Import List String Ascii ZArith Lia Bool Arith.
From Stdlib Require Import DecimalString.
Import ListNotations.
Open Scope string_scope.

(** ** Python values and exceptions *)

(** [e.data] of a [github.GithubException]: a dict that may carry a
    ['message'] and a list of ['errors'], each of which may carry a
    ['message'] of its own.  A missing key is [None]. *)
Record gh_data := mk_gh_data {
  d_message : option string;
  d_errors : option (list (option string))
}.

(** The exceptions the two scripts can end with.  [sys.exit(n)] raises
    [SystemExit n]. *)
Inductive exn :=
| KeyError (key : string)
| ValueError (msg : string)
| StopIteration
| UnboundLocalError (var : string)
| RuntimeError (msg : string)
| GithubException (data : gh_data)
| SystemExit (code : Z).

Inductive result (A : Type) :=
| Ok (a : A)
| Raise (e : exn).
Arguments Ok {A} a.
Arguments Raise {A} e.

Definition result_map {A B} (f : A -> B) (r : result A) : result B :=
  match r with
  | Ok a => Ok (f a)
  | Raise e => Raise e
  end.

(** Exit status of the interpreter: 0 on a normal return, the code of a
    [SystemExit], and 1 after the traceback of any other exception. *)
Definition exit_status {A} (r : result A) : Z :=
  match r with
  | Ok _ => 0
  | Raise (SystemExit c) => c
  | Raise _ => 1
  end.

(** ** The Python builtins the scripts use *)

Module Py.

(** [sub in s] on strings. *)
Fixpoint contains (sub s : string) : bool :=
  String.prefix sub s ||
  match s with
  | EmptyString => false
  | String _ s' => contains sub s'
  end.

(** [x in l] on a list of strings. *)
Definition mem (x : string) (l : list string) : bool :=
  existsb (String.eqb x) l.

(** [sep.join(l)]. *)
Fixpoint join (sep : string) (l : list string) : string :=
  match l with
  | [] => EmptyString
  | [x] => x
  | x :: l' => x ++ sep ++ join sep l'
  end.

(** [str(n)] for a non-negative integer. *)
Definition str_of_nat (n : nat) : string :=
  NilEmpty.string_of_uint (Nat.to_uint n).

(** [l.remove(x)] on a list of strings: drops the first element equal to
    [x], [ValueError] when there is none. *)
Fixpoint remove (x : string) (l : list string) : result (list string) :=
  match l with
  | [] => Raise (ValueError "list.remove(x): x not in list")
  | y :: l' =>
      if String.eqb y x then Ok l'
      else result_map (cons y) (remove x l')
  end.

(** [max(l, key=len)]: the first element of greatest length,
    [ValueError] on an empty list. *)
Fixpoint max_len_from (best : string) (l : list string) : string :=
  match l with
  | [] => best
  | x :: l' =>
      if (String.length best <? String.length x)%nat
      then max_len_from x l' else max_len_from best l'
  end.

Definition max_by_len (l : list string) : result string :=
  match l with
  | [] => Raise (ValueError "max() arg is an empty sequence")
  | x :: l' => Ok (max_len_from x l')
  end.

(** [sys.maxsize] of a 64-bit CPython. *)
Definition maxsize : Z := 2 ^ 63 - 1.

(** [list(itertools.islice(it, stop))]: everything when [stop] is [None],
    the first [stop] elements otherwise; [islice] refuses a [stop] below 0
    or above [sys.maxsize]. *)
Definition islice {A} (it : list A) (stop : option Z) : result (list A) :=
  match stop with
  | None => Ok it
  | Some n =>
      if (0 <=? n)%Z && (n <=? maxsize)%Z then Ok (firstn (Z.to_nat n) it)
      else Raise (ValueError
        "Stop argument for islice() must be None or an integer: 0 <= x <= sys.maxsize.")
  end.

(** [s.rjust(w)], which is what the format spec [: >{w}] does. *)
Definition rjust (w : nat) (s : string) : string :=
  String.concat EmptyString (repeat " " (w - String.length s)) ++ s.

(** [repr(s)] of a string: single quotes unless the string has a single
    quote and no double quote; the quote in use and the backslash are
    escaped.  (Control characters, which [repr] writes as escapes, do not
    occur in GitHub names and are left as they are.) *)
Definition has_char (c : ascii) (s : string) : bool :=
  existsb (Ascii.eqb c) (list_ascii_of_string s).

Fixpoint escape (q : ascii) (s : string) : string :=
  match s with
  | EmptyString => EmptyString
  | String c s' =>
      if Ascii.eqb c q || Ascii.eqb c "\"
      then String "\" (String c (escape q s'))
      else String c (escape q s')
  end.

Definition repr (s : string) : string :=
  let q := if has_char "'" s && negb (has_char "034" s)
           then "034"%char else "'"%char in
  String q (escape q s) ++ String q EmptyString.

(** [str(l)] of a list of strings. *)
Definition str_of_list (l : list string) : string :=
  "[" ++ join ", " (map repr l) ++ "]".

(** [template.format] with keyword arguments, for the templates of the
    scripts: literal text, doubled braces, and replacement fields [{name}]
    looked up among the keyword arguments ([KeyError] when [name] was not
    passed).  The one template with a format spec, in
    [find_teams_by_repos], is written out with [rjust] where it is used. *)
Fixpoint lookup {A} (k : string) (kw : list (string * A)) : option A :=
  match kw with
  | [] => None
  | (k', v) :: kw' => if String.eqb k' k then Some v else lookup k kw'
  end.

Fixpoint format_from (field : option string) (t : string)
    (kw : list (string * string)) : result string :=
  match t with
  | EmptyString =>
      match field with
      | None => Ok EmptyString
      | Some _ => Raise (ValueError "expected '}' before end of string")
      end
  | String c t' =>
      match field with
      | Some f =>
          if Ascii.eqb c "}" then
            match lookup f kw with
            | Some v => result_map (append v) (format_from None t' kw)
            | None => Raise (KeyError f)
            end
          else format_from (Some (f ++ String c EmptyString)) t' kw
      | None =>
          if Ascii.eqb c "{" then
            match t' with
            | String "{" t'' =>
                result_map (String "{") (format_from None t'' kw)
            | _ => format_from (Some EmptyString) t' kw
            end
          else if Ascii.eqb c "}" then
            match t' with
            | String "}" t'' =>
                result_map (String "}") (format_from None t'' kw)
            | _ => Raise (ValueError
                     "Single '}' encountered in format string")
            end
          else result_map (String c) (format_from None t' kw)
      end
  end.

Definition format (t : string) (kw : list (string * string))
  : result string :=
  format_from None t kw.

End Py.

(** ** Dictionaries

    A Python [dict] keeps its keys in insertion order; assigning to a key
    that is present replaces the value where it stands. *)

Module Dict.

Definition t (V : Type) := list (string * V).

Definition empty {V} : t V := [].

Definition get {V} (k : string) (d : t V) : option V := Py.lookup k d.

Fixpoint set {V} (k : string) (v : V) (d : t V) : t V :=
  match d with
  | [] => [(k, v)]
  | (k', v') :: d' =>
      if String.eqb k' k then (k, v) :: d' else (k', v') :: set k v d'
  end.

Definition keys {V} (d : t V) : list string := map fst d.

Definition items {V} (d : t V) : list (string * V) := d.

End Dict.

(** ** GitHub objects, as the fork tool reads them *)

Module Team.
Record t := mk { id : Z; name : string }.
End Team.

Module Repository.
Record t := mk { name : string; full_name : string; created_at : Z }.
End Repository.

Record Organization := mk_org { login : string }.

(** ** What a run does: console messages, API calls, progress ticks *)

Inductive level := DEBUG | WARN | ERROR.

Inductive call :=
| GetOrganization (name : string)
| GetTeams (org : Organization)
| RepoGetTeams (r : Repository.t)
| CreateFork (org : Organization) (r : Repository.t)
| CreateTeam (org : Organization) (name : string)
    (repo_names : option (list string)).

Inductive event :=
| Log (l : level) (msg : string)
| Call (c : call)
| Progress (idx : nat).

(** The world the fork tool runs in: GitHub behind PyGithub, the clock,
    and the helper [codetools.validate_org], whose source is not at hand
    and which is taken as it comes: it returns or it raises.  Enumerations
    read the state; [create_fork] and [create_team] change it and can
    raise a [GithubException] carrying [e.data]. *)
Class World (W : Type) := {
  now : W -> Z;
  validate_org : string -> result unit;
  get_organization : string -> W -> result Organization;
  get_teams : Organization -> W -> list Team.t;
  get_repos : Team.t -> W -> list Repository.t;
  repo_get_teams : Repository.t -> W -> list Team.t;
  create_fork : Organization -> Repository.t -> W
                -> (gh_data + Repository.t) * W;
  create_team : Organization -> string -> option (list string) -> W
                -> (gh_data + Team.t) * W
}.

(** Command line of [github-fork-repos] ([--token], [--token-path] and
    [--debug] only reach the login and the logger level). *)
Record Args := mk_args {
  src_org : string;
  dst_org : string;
  team : list string;
  limit : option Z;
  copy_teams : bool
}.

Section ForkRepos.

Context {W : Type} `{World W}.

(** A computation reads and changes the world, leaves a trace, and
    returns or raises. *)
Definition M (A : Type) : Type := W -> result A * W * list event.

Definition ret {A} (a : A) : M A := fun w => (Ok a, w, []).

Definition raise {A} (e : exn) : M A := fun w => (Raise e, w, []).

Definition bind {A B} (m : M A) (k : A -> M B) : M B :=
  fun w =>
    let '(r, w1, t1) := m w in
    match r with
    | Raise e => (Raise e, w1, t1)
    | Ok a => let '(r2, w2, t2) := k a w1 in (r2, w2, (t1 ++ t2)%list)
    end.

(** [try: m  except Exception as e: h e]. *)
Definition try_except {A} (m : M A) (h : exn -> M A) : M A :=
  fun w =>
    let '(r, w1, t1) := m w in
    match r with
    | Ok a => (Ok a, w1, t1)
    | Raise e => let '(r2, w2, t2) := h e w1 in (r2, w2, (t1 ++ t2)%list)
    end.

Definition emit (e : event) : M unit := fun w => (Ok tt, w, [e]).

Definition read {A} (f : W -> A) : M A := fun w => (Ok (f w), w, []).

Definition of_result {A} (r : result A) : M A := fun w => (r, w, []).

Notation "x <- m ;; k" := (bind m (fun x => k))
  (at level 61, m at next level, right associativity).
Notation "m ;;; k" := (bind m (fun _ => k))
  (at level 61, right associativity).

(** [for x in l: body x]. *)
Fixpoint for_each {A} (l : list A) (body : A -> M unit) : M unit :=
  match l with
  | [] => ret tt
  | x :: l' => body x ;;; for_each l' body
  end.

(** A [for] loop that updates local variables [s]. *)
Fixpoint for_fold {A S} (l : list A) (s : S) (body : S -> A -> M S) : M S :=
  match l with
  | [] => ret s
  | x :: l' => s' <- body s x ;; for_fold l' s' body
  end.

(** [codetools.debug], [warn] and [error] put one message on the console
    (whether a debug message is shown is the logger's business). *)
Definition debug (msg : string) : M unit := emit (Log DEBUG msg).
Definition warn (msg : string) : M unit := emit (Log WARN msg).
Definition error (msg : string) : M unit := emit (Log ERROR msg).

(** [debug(template.format(...))]: the message is formatted first. *)
Definition logf (l : level) (template : string)
    (kw : list (string * string)) : M unit :=
  msg <- of_result (Py.format template kw) ;; emit (Log l msg).

(** The API calls, each leaving its mark in the trace. *)
Definition call_get_organization (name : string) : M Organization :=
  emit (Call (GetOrganization name)) ;;;
  r <- read (get_organization name) ;; of_result r.

Definition call_get_teams (org : Organization) : M (list Team.t) :=
  emit (Call (GetTeams org)) ;;; read (get_teams org).

Definition call_repo_get_teams (r : Repository.t) : M (list Team.t) :=
  emit (Call (RepoGetTeams r)) ;;; read (repo_get_teams r).

Definition call_create_fork (org : Organization) (r : Repository.t)
  : M Repository.t :=
  fun w =>
    let '(res, w') := create_fork org r w in
    (match res with
     | inl d => Raise (GithubException d)
     | inr f => Ok f
     end, w', [Call (CreateFork org r)]).

Definition call_create_team (org : Organization) (name : string)
    (repo_names : option (list string)) : M Team.t :=
  fun w =>
    let '(res, w') := create_team org name repo_names w in
    (match res with
     | inl d => Raise (GithubException d)
     | inr t => Ok t
     end, w', [Call (CreateTeam org name repo_names)]).

(** Modelled from the spec: [codekit.pygithub.get_repos_by_team], whose
    source is not at hand: it enumerates the deduplicated union of the
    repositories of the given teams, a repository being identified by its
    full name. *)
Fixpoint uniq_from (seen : list string) (l : list Repository.t)
  : list Repository.t :=
  match l with
  | [] => []
  | r :: l' =>
      if Py.mem (Repository.full_name r) seen then uniq_from seen l'
      else r :: uniq_from (Repository.full_name r :: seen) l'
  end.

Definition get_repos_by_team (teams : list Team.t) : M (list Repository.t) :=
  read (fun w => uniq_from [] (flat_map (fun t => get_repos t w) teams)).

(** *** [find_teams_by_repos] *)

Definition find_teams_by_repos (src_repos : list Repository.t)
  : M (Dict.t (Repository.t * list Team.t)) :=
  longest <- of_result
    (Py.max_by_len (map Repository.full_name src_repos)) ;;
  let max_name_len := String.length longest in
  for_fold src_repos Dict.empty (fun src_rt r =>
    teams <- call_repo_get_teams r ;;
    let team_names := map Team.name teams in
    debug ("  " ++ Py.rjust max_name_len (Repository.full_name r)
           ++ " " ++ Py.str_of_list team_names) ;;;
    ret (Dict.set (Repository.full_name r) (r, teams) src_rt)).

(** *** [find_used_teams] *)

Definition add_used_team (repo : Repository.t)
    (used_teams : Dict.t (list Repository.t)) (name : string)
  : Dict.t (list Repository.t) :=
  match Dict.get name used_teams with
  | None => Dict.set name [repo] used_teams
  | Some repos => Dict.set name (repos ++ [repo])%list used_teams
  end.

Definition find_used_teams (src_rt : Dict.t (Repository.t * list Team.t))
  : Dict.t (list Repository.t) :=
  fold_left
    (fun used_teams '(k, (repo, teams)) =>
       fold_left (add_used_team repo) (map Team.name teams) used_teams)
    (Dict.items src_rt) Dict.empty.

(** *** [create_teams] *)

(** [d[key]] on the dicts of a [GithubException]. *)
Definition item {A} (key : string) (v : option A) : M A :=
  match v with
  | Some a => ret a
  | None => raise (KeyError key)
  end.

(** The body of the [try] (lines 132-139). *)
Definition try_create_team (org : Organization) (name : string)
    (repos : list Repository.t) (with_repos : bool) : M Team.t :=
  if with_repos then
    let dst_repo_names :=
      map (fun r => Py.join "/" [login org; Repository.name r]) repos in
    debug "  with members:" ;;;
    for_each dst_repo_names (fun r => logf DEBUG "    {r}" [("r", r)]) ;;;
    call_create_team org name (Some dst_repo_names)
  else
    call_create_team org name None.

(** The [except github.GithubException as e] clause (lines 140-151). *)
Definition except_create_team (org : Organization) (name : string)
    (ignore_existing : bool) (data : gh_data) : M Team.t :=
  m <- item "message" (d_message data) ;;
  logf ERROR "  {m}" [("m", m)] ;;;
  errors <- item "errors" (d_errors data) ;;
  for_each errors (fun oops =>
    msg <- item "message" oops ;;
    logf ERROR "    {m}" [("m", msg)] ;;;
    if negb (ignore_existing
             && Py.contains "Name has already been taken" msg)
    then raise (GithubException data)
    else ret tt) ;;;
  teams <- call_get_teams org ;;
  match find (fun t => Py.contains (Team.name t) name) teams with
  | Some t => ret t
  | None => raise StopIteration
  end.

(** Lines 130-153: the [try] statement and the store into [dst_teams]. *)
Definition create_or_reuse_team (org : Organization) (name : string)
    (repos : list Repository.t) (with_repos ignore_existing : bool)
    (dst_teams : Dict.t Team.t) : M (Dict.t Team.t) :=
  dst_t <- try_except (try_create_team org name repos with_repos)
    (fun e =>
       match e with
       | GithubException data =>
           except_create_team org name ignore_existing data
       | _ => raise e
       end) ;;
  ret (Dict.set (Team.name dst_t) dst_t dst_teams).

Definition create_teams (org : Organization)
    (teams : Dict.t (list Repository.t))
    (with_repos ignore_existing : bool) : M (Dict.t Team.t) :=
  logf DEBUG "creating teams in {org}" [("org", login org)] ;;;
  for_fold (Dict.items teams) Dict.empty (fun dst_teams '(name, repos) =>
    logf DEBUG "creating team {o}/'{t}'"
      [("org", login org); ("t", name)] ;;;
    create_or_reuse_team org name repos with_repos ignore_existing
      dst_teams).

(** *** [create_forks] *)

Definition nl : string := String "010" EmptyString.

(** [str] of a timestamp; times are plain integers here. *)
Definition str_of_time (t : Z) : string :=
  NilEmpty.string_of_int (Z.to_int t).

Definition fork_warning (fork : Repository.t) : list (string * string) :=
  [("r", Repository.full_name fork);
   ("ctime", str_of_time (Repository.created_at fork))].

(** One turn of the loop (lines 175-188). *)
Definition create_forks_step (dst_org : Organization) (repo_idx : nat)
    (r : Repository.t) : M nat :=
  now_ <- read now ;;
  logf DEBUG "forking {r}" [("r", Repository.full_name r)] ;;;
  fork <- call_create_fork dst_org r ;;
  logf DEBUG "  -> {r}" [("r", Repository.full_name fork)] ;;;
  (if (Repository.created_at fork <? now_)%Z
   then logf WARN ("fork of {r} already exists" ++ nl
                   ++ "  created_at {ctime}") (fork_warning fork)
   else ret tt) ;;;
  emit (Progress repo_idx) ;;;
  ret (S repo_idx).

(** The loop, entered with [repo_idx] repositories behind it. *)
Definition create_forks_loop (dst_org : Organization) (repo_idx : nat)
    (src_repos : list Repository.t) : M nat :=
  for_fold src_repos repo_idx (create_forks_step dst_org).

Definition create_forks (dst_org : Organization)
    (src_repos : list Repository.t) : M unit :=
  create_forks_loop dst_org 0%nat src_repos ;;; ret tt.

(** *** [main] *)

(** Lines 197-204. *)
Definition open_orgs (args : Args) : M (Organization * Organization) :=
  of_result (validate_org (dst_org args)) ;;;
  src <- call_get_organization (src_org args) ;;
  dst <- call_get_organization (dst_org args) ;;
  logf DEBUG "forking repos from: {org}" [("org", login src)] ;;;
  logf DEBUG "                to: {org}" [("org", login dst)] ;;;
  ret (src, dst).

(** Lines 206-214: the repositories of the teams named by [--team], as
    the generator [repos] enumerates them.  Without a [--team] the [else]
    branch reads [fork_teams] before it was ever assigned. *)
Definition find_repos (args : Args) (src : Organization)
  : M (list Repository.t) :=
  debug "looking for repos -- this can take a while for large orgs..." ;;;
  match team args with
  | _ :: _ =>
      debug "selecting repos by membership in team(s):" ;;;
      teams <- call_get_teams src ;;
      let fork_teams :=
        filter (fun t => Py.mem (Team.name t) (team args)) teams in
      for_each fork_teams
        (fun t => logf DEBUG "  '{t}'" [("t", Team.name t)]) ;;;
      teams <- call_get_teams src ;;
      let fork_teams :=
        filter (fun t => Py.mem (Team.name t) (team args)) teams in
      get_repos_by_team fork_teams
  | [] => raise (UnboundLocalError "fork_teams")
  end.

(** Lines 206-216: [src_repos]. *)
Definition select_repos (args : Args) (src : Organization)
  : M (list Repository.t) :=
  repos <- find_repos args src ;;
  of_result (Py.islice repos (limit args)).

(** Lines 230-261: the team-usage index of the selection, and the check
    against the teams of the destination. *)
Definition check_teams (src dst : Organization)
    (src_repos : list Repository.t) : M (Dict.t (list Repository.t)) :=
  debug "checking source repo team membership..." ;;;
  src_rt <- find_teams_by_repos src_repos ;;
  let src_teams := find_used_teams src_rt in
  logf DEBUG "found {n} teams in use within org {o}:"
    [("n", Py.str_of_nat (List.length src_teams)); ("o", login src)] ;;;
  for_each (Dict.keys src_teams)
    (fun t => logf DEBUG "  '{t}'" [("t", t)]) ;;;
  debug "checking teams in destination org:" ;;;
  dst_teams <- call_get_teams dst ;;
  let dst_team_names := map Team.name dst_teams in
  conflicting_teams <-
    for_fold (Dict.keys src_teams) [] (fun conflicting_teams src_t_name =>
      logf DEBUG "  looking for team: '{t}'" [("t", src_t_name)] ;;;
      if Py.mem src_t_name dst_team_names then
        logf ERROR "    {o}/'{t}' already exists"
          [("o", login dst); ("t", src_t_name)] ;;;
        ret (conflicting_teams ++ [src_t_name])%list
      else ret conflicting_teams) ;;
  match conflicting_teams with
  | _ :: _ =>
      logf ERROR "conflicting teams in {o}:" [("o", login dst)] ;;;
      for_each conflicting_teams
        (fun t => logf ERROR "  '{t}'" [("t", t)]) ;;;
      raise (SystemExit 1)
  | [] => ret src_teams
  end.

(** Lines 229-267: what [main] does with a selection that is not empty.
    [src_teams] is bound only under [--copy-teams], and read only under
    it: the empty dict stands for the unbound name. *)
Definition fork_selection (args : Args) (src dst : Organization)
    (src_repos : list Repository.t) : M unit :=
  src_teams <-
    (if copy_teams args then check_teams src dst src_repos
     else ret Dict.empty) ;;
  debug "there is no spoon..." ;;;
  create_forks dst src_repos ;;;
  if copy_teams args
  then create_teams dst src_teams false false ;;; ret tt
  else ret tt.

Definition main (args : Args) : M unit :=
  orgs <- open_orgs args ;;
  let '(src, dst) := orgs in
  src_repos <- select_repos args src ;;
  let repo_count := List.length src_repos in
  match repo_count with
  | O => debug "nothing to do -- exiting" ;;; raise (SystemExit 0)
  | S _ =>
      logf DEBUG "found {n} repos to be forked from org {src_org}:"
        [("n", Py.str_of_nat repo_count); ("src_org", login src)] ;;;
      for_each src_repos
        (fun r => logf DEBUG "  {r}" [("r", Repository.full_name r)]) ;;;
      fork_selection args src dst src_repos
  end.

End ForkRepos.

Arguments M W : clear implicits.

(** ** [github_list_repos.py] *)

Module ListRepos.

(** A repository as [org.iter_repos()] yields it, with the names of the
    teams [repo.iter_teams()] yields. *)
Record Repo := mk_repo { name : string; iter_teams : list string }.

(** [--hide] is [None] when the option is absent. *)
Record Opt := mk_opt {
  organisation : string;
  teams : bool;
  hide : option string
}.

Definition tab : string := String "009" EmptyString.

(** The body of the loop (lines 52-61): the line printed for one
    repository.  [if opt.hide:] is false for [None] and for the empty
    string. *)
Definition print_repo (opt : Opt) (repo : Repo) : result string :=
  if negb (teams opt) then Ok (name repo)
  else
    let teamnames := iter_teams repo in
    let removed :=
      match hide opt with
      | Some (String c h) => Py.remove (String c h) teamnames
      | _ => Ok teamnames
      end in
    result_map (fun teamnames => name repo ++ " : " ++ Py.join tab teamnames)
      removed.

(** The script: the lines printed, and how the run ends. *)
Fixpoint main (opt : Opt) (repos : list Repo) : list string * result unit :=
  match repos with
  | [] => ([], Ok tt)
  | repo :: repos' =>
      match print_repo opt repo with
      | Raise e => ([], Raise e)
      | Ok line =>
          let '(out, r) := main opt repos' in (line :: out, r)
      end
  end.

End ListRepos.

(** ** A reference GitHub

    A small GitHub to run the fork tool against: organisations own teams,
    teams have member repositories, a fork request for a repository that
    was already forked hands back the existing fork, and a team name can
    be taken only once per organisation.  A request takes two ticks of
    the clock, a new fork being stamped in between.  [faults] lists the
    names of repositories and teams whose creation is made to fail, with
    the error data GitHub answers. *)

Module Sim.

Record t := mk {
  clock : Z;
  teams : list (string * Team.t * list Repository.t);
  forks : list Repository.t;
  faults : list (string * gh_data)
}.

Definition team_eqb (a b : Team.t) : bool :=
  (Team.id a =? Team.id b)%Z && String.eqb (Team.name a) (Team.name b).

Definition org_teams (org : Organization) (s : t) : list Team.t :=
  map (fun e => snd (fst e))
    (filter (fun e => String.eqb (fst (fst e)) (login org)) (teams s)).

Definition team_repos (tm : Team.t) (s : t) : list Repository.t :=
  flat_map snd (filter (fun e => team_eqb (snd (fst e)) tm) (teams s)).

Definition teams_of_repo (r : Repository.t) (s : t) : list Team.t :=
  map (fun e => snd (fst e))
    (filter (fun e => Py.mem (Repository.full_name r)
                        (map Repository.full_name (snd e))) (teams s)).

Definition fork_of (org : Organization) (r : Repository.t) (s : t)
  : (gh_data + Repository.t) * t :=
  let fn := Py.join "/" [login org; Repository.name r] in
  match Py.lookup (Repository.name r) (faults s) with
  | Some data => (inl data, s)
  | None =>
      match find (fun f => String.eqb (Repository.full_name f) fn)
              (forks s) with
      | Some f => (inr f, mk (clock s + 2) (teams s) (forks s) (faults s))
      | None =>
          let f := Repository.mk (Repository.name r) fn (clock s + 1) in
          (inr f,
           mk (clock s + 2) (teams s) (forks s ++ [f])%list (faults s))
      end
  end.

Definition name_taken : gh_data :=
  mk_gh_data (Some "Validation Failed")
    (Some [Some "Name has already been taken"]).

Definition new_team (org : Organization) (name : string)
    (repo_names : option (list string)) (s : t) : (gh_data + Team.t) * t :=
  match Py.lookup name (faults s) with
  | Some data => (inl data, s)
  | None =>
      if Py.mem name (map Team.name (org_teams org s))
      then (inl name_taken, s)
      else
        let tm := Team.mk (Z.of_nat (List.length (teams s)) + 1) name in
        let members :=
          match repo_names with
          | None => []
          | Some ns =>
              filter (fun f => Py.mem (Repository.full_name f) ns) (forks s)
          end in
        (inr tm,
         mk (clock s + 2) (teams s ++ [(login org, tm, members)])%list
            (forks s) (faults s))
  end.

#[global] Instance world : World t := {|
  now := clock;
  validate_org := fun o =>
    if Py.mem o ["lsst"] then Raise (RuntimeError "protected organisation")
    else Ok tt;
  get_organization := fun name _ => Ok (mk_org name);
  get_teams := org_teams;
  get_repos := team_repos;
  repo_get_teams := teams_of_repo;
  create_fork := fork_of;
  create_team := new_team
|}.

End Sim.

(** The organisations of the end-to-end scenario: [A] has [A/x] in team
    [t1], [A/y] in [t1] and [t2], [A/z] in [t2]; [B] is empty. *)
Module Scenario.

Definition x := Repository.mk "x" "A/x" 10.
Definition y := Repository.mk "y" "A/y" 20.
Definition z := Repository.mk "z" "A/z" 30.
Definition t1 := Team.mk 1 "t1".
Definition t2 := Team.mk 2 "t2".
Definition A := mk_org "A".
Definition B := mk_org "B".

Definition github : Sim.t :=
  Sim.mk 100 [("A", t1, [x; y]); ("A", t2, [y; z])] [] [].

(** The same, with a team [t1] already in [B]. *)
Definition github_with_t1 : Sim.t :=
  Sim.mk 100
    [("A", t1, [x; y]); ("A", t2, [y; z]); ("B", Team.mk 3 "t1", [])] [] [].

Definition args (copy : bool) : Args := mk_args "A" "B" ["t1"] None copy.

(** After a first run: [x] and [y] are forked into [B]. *)
Definition Bx := Repository.mk "x" "B/x" 101.
Definition By := Repository.mk "y" "B/y" 103.

Definition forked : Sim.t :=
  Sim.mk 104 [("A", t1, [x; y]); ("A", t2, [y; z])] [Bx; By] [].

(** GitHub refuses to fork [y]. *)
Definition forbidden : gh_data := mk_gh_data (Some "Forbidden") None.

Definition github_fork_fails : Sim.t :=
  Sim.mk 100 [("A", t1, [x; y]); ("A", t2, [y; z])] [] [("y", forbidden)].

(** GitHub refuses to create [t1]: the name is taken, and something else
    is wrong too. *)
Definition two_errors : gh_data :=
  mk_gh_data (Some "Validation Failed")
    (Some [Some "Name has already been taken";
           Some "Description is too long"]).

Definition github_two_errors : Sim.t :=
  Sim.mk 104 [("A", t1, [x; y]); ("A", t2, [y; z]); ("B", Team.mk 4 "t1", [])]
    [Bx; By] [("t1", two_errors)].

(** [B] with teams [t] and [t1]. *)
Definition Bt := Team.mk 3 "t".
Definition Bt1 := Team.mk 4 "t1".

Definition github_with_t : Sim.t :=
  Sim.mk 104
    [("A", t1, [x; y]); ("A", t2, [y; z]); ("B", Bt, []); ("B", Bt1, [])]
    [Bx; By] [].

End Scenario.

(** ** Vocabulary of the statements *)

Module ListReposSpec.
Import ListRepos.

(** [line] is what is printed for [repo] with one [H], its first, taken
    out of the team names. *)
Definition hide_line (H : string) (repo : Repo) (line : string) : Prop :=
  exists a b,
    iter_teams repo = (a ++ H :: b)%list /\ ~ In H a /\
    line = name repo ++ " : " ++ Py.join tab (a ++ b)%list.

Definition in_team (H : string) (repo : Repo) : Prop :=
  In H (iter_teams repo).

(** A run with [--teams --hide H]: every printed line has [H] removed
    once; the run stops with [ValueError] at the first repository outside
    team [H], after the lines of the repositories before it; it ends
    normally, one line per repository, when there is none. *)
Definition hide_claim (H : string) (repos : list Repo) : Prop :=
  forall org,
    let out := main (mk_opt org true (Some H)) repos in
    Forall2 (hide_line H) (firstn (List.length (fst out)) repos) (fst out)
    /\ (forall pre r post,
          repos = (pre ++ r :: post)%list ->
          Forall (in_team H) pre -> ~ in_team H r ->
          List.length (fst out) = List.length pre /\
          exists msg, snd out = Raise (ValueError msg))
    /\ (Forall (in_team H) repos ->
        List.length (fst out) = List.length repos /\ snd out = Ok tt).

End ListReposSpec.

(** The stages of a run of the fork tool, and the events each one can
    leave: console messages anywhere, progress ticks while forking, and
    the API calls of the stage. *)
Inductive stage :=
| SELECT | CAPTURE_TEAMS | CHECK_CONFLICTS | FORK_ALL | CREATE_TEAMS.

Definition stage_call (s : stage) (c : call) : bool :=
  match s, c with
  | SELECT, (GetOrganization _ | GetTeams _) => true
  | CAPTURE_TEAMS, RepoGetTeams _ => true
  | CHECK_CONFLICTS, GetTeams _ => true
  | FORK_ALL, CreateFork _ _ => true
  | CREATE_TEAMS, (CreateTeam _ _ _ | GetTeams _) => true
  | _, _ => false
  end.

Definition in_stage (s : stage) (e : event) : Prop :=
  match e with
  | Log _ _ => True
  | Progress _ => s = FORK_ALL
  | Call c => stage_call s c = true
  end.

(** [tr] is cut into consecutive pieces, one per stage of [ss], in that
    order (a piece may be empty). *)
Fixpoint staged (ss : list stage) (tr : list event) : Prop :=
  match ss with
  | [] => tr = []
  | s :: ss' =>
      exists t1 t2,
        tr = (t1 ++ t2)%list /\ Forall (in_stage s) t1 /\ staged ss' t2
  end.

Definition is_fork_request (e : event) : Prop :=
  match e with
  | Call (CreateFork _ _) => True
  | _ => False
  end.

Definition is_team_request (e : event) : Prop :=
  match e with
  | Call (CreateTeam _ _ _) => True
  | _ => False
  end.

(** Neither a fork nor a team was asked for. *)
Definition no_request (tr : list event) : Prop :=
  Forall (fun e => ~ is_fork_request e /\ ~ is_team_request e) tr.

Definition warnings (tr : list event) : list string :=
  flat_map (fun e => match e with Log WARN msg => [msg] | _ => [] end) tr.

Definition fork_requests (tr : list event) : list Repository.t :=
  flat_map (fun e => match e with
                     | Call (CreateFork _ r) => [r]
                     | _ => []
                     end) tr.

(** The warning of [create_forks] about a fork that was there before. *)
Definition already_exists_warning (fork : Repository.t) : string :=
  "fork of " ++ Repository.full_name fork ++ " already exists" ++ nl
  ++ "  created_at " ++ str_of_time (Repository.created_at fork).

(** The trace of one turn of the loop of [create_forks] that went
    through. *)
Definition fork_turn (dst_org : Organization) (repo_idx : nat)
    (r fork : Repository.t) (warned : bool) : list event :=
  ([Log DEBUG ("forking " ++ Repository.full_name r);
    Call (CreateFork dst_org r);
    Log DEBUG ("  -> " ++ Repository.full_name fork)]
   ++ (if warned then [Log WARN (already_exists_warning fork)] else [])
   ++ [Progress repo_idx])%list.

(** The two error messages of the conflict check about a team name. *)
Definition exists_error (dst : Organization) (n : string) : event :=
  Log ERROR ("    " ++ login dst ++ "/'" ++ n ++ "' already exists").

Definition conflict_error (n : string) : event :=
  Log ERROR ("  '" ++ n ++ "'").

(** A sub-error of a [GithubException] that says the team name is
    taken. *)
Definition name_taken_error (oops : option string) : Prop :=
  exists msg,
    oops = Some msg /\ Py.contains "Name has already been taken" msg = true.


(** C5 in symbols: whatever [repos] enumerates, [src_repos] is its
    first [min(N, |S|)] elements under [--limit N], and all of it without
    a limit. *)
Definition limit_claim {W : Type} `{World W} (args : Args)
    (src : Organization) (w : W) : Prop :=
  forall S w1 t,
    find_repos args src w = (Ok S, w1, t) ->
    select_repos args src w
    = (Ok match limit args with
          | None => S
          | Some N =>
              firstn (Z.to_nat (Z.min N (Z.of_nat (List.length S)))) S
          end, w1, t).

Section Observations.

Context {W : Type} `{World W}.

(** What a computation leaves in the world and in the trace. *)
Definition readonly {A} (m : M W A) : Prop :=
  forall w, snd (fst (m w)) = w.

Definition emits (P : event -> Prop) {A} (m : M W A) : Prop :=
  forall w, Forall P (snd (m w)).

Definition staged_run (ss : list stage) {A} (m : M W A) : Prop :=
  forall w, staged ss (snd (m w)).

End Observations.

(** The progress ticks, the API calls and the error events of a trace,
    in order. *)
Definition progress_ticks (tr : list event) : list nat :=
  flat_map (fun e => match e with Progress i => [i] | _ => [] end) tr.

Definition api_calls (tr : list event) : list call :=
  flat_map (fun e => match e with Call c => [c] | _ => [] end) tr.

Definition error_events (tr : list event) : list event :=
  flat_map (fun e => match e with Log ERROR _ => [e] | _ => [] end) tr.

(** The team names of the usage index that the destination has too, in
    the order of the index. *)
Definition conflicts {W : Type} `{World W} (w : W) (dst : Organization)
    (src_teams : Dict.t (list Repository.t)) : list string :=
  filter (fun n => Py.mem n (map Team.name (get_teams dst w)))
    (Dict.keys src_teams).

(** A sub-error with a message that the handler of [create_teams] lets
    pass. *)
Definition tolerated (ignore_existing : bool) (oops : option string)
  : Prop :=
  exists msg,
    oops = Some msg /\
    ignore_existing && Py.contains "Name has already been taken" msg = true.

(** The repositories of an index [src_rt] that list a team named [n],
    once per listing, in the order of the index. *)
Definition repos_of_team (n : string)
    (src_rt : Dict.t (Repository.t * list Team.t)) : list Repository.t :=
  flat_map (fun item =>
              flat_map (fun t => if String.eqb (Team.name t) n
                                 then [fst (snd item)] else [])
                (snd (snd item)))
    src_rt.

(** A dict [d] holds exactly the non-empty lists of [V]. *)
Definition represents {A} (d : Dict.t (list A)) (V : string -> list A)
  : Prop :=
  NoDup (Dict.keys d) /\
  forall n, Dict.get n d = match V n with [] => None | l => Some l end.

(** The repositories of [repos] whose teams, as GitHub lists them in
    [w], include one named [n]. *)
Definition selected_in_team {W : Type} `{World W} (w : W) (n : string)
    (repos : list Repository.t) : list Repository.t :=
  flat_map (fun r =>
              flat_map (fun t => if String.eqb (Team.name t) n
                                 then [r] else [])
                (repo_get_teams r w))
    repos.

(** The index [find_teams_by_repos] builds for repositories of distinct
    full names. *)
Definition teams_index {W : Type} `{World W} (w : W)
    (repos : list Repository.t) : Dict.t (Repository.t * list Team.t) :=
  map (fun r => (Repository.full_name r, (r, repo_get_teams r w))) repos.

(** The destination names [create_teams] gives to repositories. *)
Definition qualified_names (org : Organization)
    (repos : list Repository.t) : list string :=
  map (fun r => Py.join "/" [login org; Repository.name r]) repos.

(** ** Facts about the builtins *)

Open Scope list_scope.

Lemma append_empty_r (s : string) : (s ++ EmptyString)%string = s.
Proof. induction s as [|c s IH]; simpl; [reflexivity | now rewrite IH]. Qed.

Lemma mem_In (x : string) (l : list string) :
  Py.mem x l = true <-> In x l.
Proof.
  unfold Py.mem. rewrite existsb_exists. split.
  - intros [y [Hy E]]. apply String.eqb_eq in E. now subst.
  - intros Hx. exists x. split; [assumption | apply String.eqb_refl].
Qed.

Lemma mem_not_In (x : string) (l : list string) :
  Py.mem x l = false <-> ~ In x l.
Proof.
  rewrite <- mem_In. destruct (Py.mem x l); split; congruence.
Qed.

Lemma remove_found (x : string) (l : list string) :
  In x l ->
  exists a b, l = a ++ x :: b /\ ~ In x a /\ Py.remove x l = Ok (a ++ b).
Proof.
  induction l as [|y l IH]; simpl; [tauto|].
  intros Hin. destruct (String.eqb_spec y x) as [->|Hne].
  - exists [], l. simpl. auto.
  - destruct Hin as [Heq|Hin]; [congruence|].
    destruct (IH Hin) as (a & b & -> & Ha & ->).
    exists (y :: a), b. simpl. intuition congruence.
Qed.

Lemma remove_missing (x : string) (l : list string) :
  ~ In x l ->
  Py.remove x l = Raise (ValueError "list.remove(x): x not in list").
Proof.
  induction l as [|y l IH]; simpl; [reflexivity|].
  intros Hn. destruct (String.eqb_spec y x) as [->|Hne]; [tauto|].
  rewrite IH by tauto. reflexivity.
Qed.

(** ** [github_list_repos.py]: [--hide] *)

Section ListReposFacts.
Import ListRepos ListReposSpec.

Lemma print_repo_hidden (org H : string) (repo : Repo) :
  H <> EmptyString -> in_team H repo ->
  exists line,
    print_repo (mk_opt org true (Some H)) repo = Ok line /\
    hide_line H repo line.
Proof.
  intros Hne Hin. unfold print_repo. simpl.
  destruct H as [|c h]; [congruence|].
  destruct (remove_found _ _ Hin) as (a & b & E & Ha & ->).
  simpl. eexists. split; [reflexivity|]. exists a, b. auto.
Qed.

Lemma print_repo_missing (org H : string) (repo : Repo) :
  H <> EmptyString -> ~ in_team H repo ->
  print_repo (mk_opt org true (Some H)) repo
  = Raise (ValueError "list.remove(x): x not in list").
Proof.
  intros Hne Hin. unfold print_repo. simpl.
  destruct H as [|c h]; [congruence|].
  rewrite remove_missing by exact Hin. reflexivity.
Qed.

Lemma main_lines (org H : string) (repos : list Repo) :
  H <> EmptyString ->
  let out := main (mk_opt org true (Some H)) repos in
  Forall2 (hide_line H) (firstn (List.length (fst out)) repos) (fst out).
Proof.
  intros Hne. induction repos as [|r repos IH]; simpl; [constructor|].
  destruct (in_dec string_dec H (iter_teams r)) as [Hin|Hout].
  - destruct (print_repo_hidden org H r Hne Hin) as (line & -> & Hl).
    destruct (main _ repos) as [out res]. simpl in *.
    constructor; assumption.
  - rewrite (print_repo_missing org H r Hne Hout). simpl. constructor.
Qed.

Lemma main_all_hidden (org H : string) (repos : list Repo) :
  H <> EmptyString -> Forall (in_team H) repos ->
  let out := main (mk_opt org true (Some H)) repos in
  List.length (fst out) = List.length repos /\ snd out = Ok tt.
Proof.
  intros Hne Hall. induction Hall as [|r repos Hr Hall IH]; simpl; [auto|].
  destruct (print_repo_hidden org H r Hne Hr) as (line & -> & _).
  destruct (main _ repos) as [out res]. simpl in *.
  destruct IH as [-> ->]. auto.
Qed.

Lemma main_stops (org H : string) (pre post : list Repo) (r : Repo) :
  H <> EmptyString -> Forall (in_team H) pre -> ~ in_team H r ->
  let out := main (mk_opt org true (Some H)) (pre ++ r :: post) in
  List.length (fst out) = List.length pre /\
  snd out = Raise (ValueError "list.remove(x): x not in list").
Proof.
  intros Hne Hall Hr. induction Hall as [|r' pre Hr' Hall IH]; simpl.
  - rewrite (print_repo_missing org H r Hne Hr). auto.
  - destruct (print_repo_hidden org H r' Hne Hr') as (line & -> & _).
    destruct (main _ (pre ++ r :: post)) as [out res]. simpl in *.
    destruct IH as [-> ->]. auto.
Qed.

End ListReposFacts.

(** C10, as stated, at [--hide ''] and one repository in team [t]: the
    claim wants a [ValueError] at that repository, which is in no team of
    that name; the script sees a false [opt.hide], removes nothing and
    prints the line. *)
Lemma hide_empty_name_counterexample :
  ~ ListReposSpec.hide_claim EmptyString [ListRepos.mk_repo "x" ["t"]].
Proof.
  intros Hc. destruct (Hc "lsst") as (_ & Hstop & _).
  destruct (Hstop [] (ListRepos.mk_repo "x" ["t"]) [] eq_refl) as [Hlen _].
  - constructor.
  - unfold ListReposSpec.in_team. simpl. intros [E|[]]. discriminate E.
  - vm_compute in Hlen. discriminate Hlen.
Qed.

(** C10 (amended): for every run of the listing tool with [--teams] and
    [--hide H], [H] not empty, [H] is removed exactly once from each
    printed team list, and the run aborts with [ValueError] at the first
    enumerated repository that is not in a team named [H]. *)
Theorem hide_removes_once_or_aborts (H : string)
    (repos : list ListRepos.Repo) :
  H <> EmptyString -> ListReposSpec.hide_claim H repos.
Proof.
  intros Hne org. cbv zeta. split; [|split].
  - apply main_lines, Hne.
  - intros pre r post -> Hpre Hr.
    destruct (main_stops org H pre post r Hne Hpre Hr) as [Hl Hs].
    split; [exact Hl|]. eexists. exact Hs.
  - intros Hall. apply main_all_hidden; assumption.
Qed.

Lemma hide_removes_once_or_aborts_witness :
  "t1" <> EmptyString /\
  ListReposSpec.hide_claim "t1"
    [ListRepos.mk_repo "x" ["t1"; "t2"; "t1"]; ListRepos.mk_repo "y" ["t2"]].
Proof.
  split; [discriminate|].
  apply (hide_removes_once_or_aborts "t1"). discriminate.
Defined.

(** ** The monad of runs *)

Section RunFacts.

Context {W : Type} `{World W}.

Lemma bind_ok {A B} (m : M W A) (k : A -> M W B) w a w1 t1 :
  m w = (Ok a, w1, t1) ->
  bind m k w
  = (fst (fst (k a w1)), snd (fst (k a w1)), t1 ++ snd (k a w1)).
Proof.
  intros E. unfold bind. rewrite E.
  destruct (k a w1) as [[r2 w2] t2]. reflexivity.
Qed.

Lemma bind_ok_eq {A B} (m : M W A) (k : A -> M W B) w a w1 t1 r w2 t2 :
  m w = (Ok a, w1, t1) -> k a w1 = (r, w2, t2) ->
  bind m k w = (r, w2, t1 ++ t2).
Proof. intros E1 E2. rewrite (bind_ok _ _ _ _ _ _ E1), E2. reflexivity. Qed.

Lemma bind_raise {A B} (m : M W A) (k : A -> M W B) w e w1 t1 :
  m w = (Raise e, w1, t1) -> bind m k w = (Raise e, w1, t1).
Proof. intros E. unfold bind. rewrite E. reflexivity. Qed.

Lemma bind_cases {A B} (m : M W A) (k : A -> M W B) w :
  (exists a w1 t1, m w = (Ok a, w1, t1) /\
     bind m k w
     = (fst (fst (k a w1)), snd (fst (k a w1)), t1 ++ snd (k a w1)))
  \/ (exists e w1 t1, m w = (Raise e, w1, t1) /\
        bind m k w = (Raise e, w1, t1)).
Proof.
  destruct (m w) as [[[a|e] w1] t1] eqn:E.
  - left. exists a, w1, t1. split; [reflexivity|]. now apply bind_ok.
  - right. exists e, w1, t1. split; [reflexivity|]. now apply bind_raise.
Qed.

(** *** Read-only computations *)

Lemma readonly_ret {A} (a : A) : readonly (@ret W A a).
Proof. intros w. reflexivity. Qed.

Lemma readonly_raise {A} e : readonly (@raise W A e).
Proof. intros w. reflexivity. Qed.

Lemma readonly_emit e : readonly (@emit W e).
Proof. intros w. reflexivity. Qed.

Lemma readonly_read {A} (f : W -> A) : readonly (read f).
Proof. intros w. reflexivity. Qed.

Lemma readonly_of_result {A} (r : result A) : readonly (@of_result W A r).
Proof. intros w. reflexivity. Qed.

Lemma readonly_bind {A B} (m : M W A) (k : A -> M W B) :
  readonly m -> (forall a, readonly (k a)) -> readonly (bind m k).
Proof.
  intros Hm Hk w. specialize (Hm w).
  destruct (bind_cases m k w) as [(a & w1 & t1 & E & ->)|(e & w1 & t1 & E & ->)];
    rewrite E in Hm; simpl in *; subst w1; [apply Hk | reflexivity].
Qed.

Lemma readonly_for_each {A} (l : list A) (body : A -> M W unit) :
  (forall x, readonly (body x)) -> readonly (for_each l body).
Proof.
  intros Hb. induction l as [|x l IH]; simpl.
  - apply readonly_ret.
  - apply readonly_bind; auto.
Qed.

Lemma readonly_for_fold {A S} (l : list A) (s : S) (body : S -> A -> M W S) :
  (forall s x, readonly (body s x)) -> readonly (for_fold l s body).
Proof.
  intros Hb. revert s. induction l as [|x l IH]; intros s; simpl.
  - apply readonly_ret.
  - apply readonly_bind; auto.
Qed.

(** *** What a computation can emit *)

Lemma emits_ret P {A} (a : A) : emits P (@ret W A a).
Proof. intros w. constructor. Qed.

Lemma emits_raise P {A} e : emits P (@raise W A e).
Proof. intros w. constructor. Qed.

Lemma emits_read P {A} (f : W -> A) : emits P (read f).
Proof. intros w. constructor. Qed.

Lemma emits_of_result P {A} (r : result A) : emits P (@of_result W A r).
Proof. intros w. constructor. Qed.

Lemma emits_emit (P : event -> Prop) e : P e -> emits P (@emit W e).
Proof. intros He w. simpl. auto. Qed.

Lemma emits_bind P {A B} (m : M W A) (k : A -> M W B) :
  emits P m -> (forall a, emits P (k a)) -> emits P (bind m k).
Proof.
  intros Hm Hk w. specialize (Hm w).
  destruct (bind_cases m k w) as [(a & w1 & t1 & E & ->)|(e & w1 & t1 & E & ->)];
    rewrite E in Hm; simpl in *; [|assumption].
  apply Forall_app. split; [assumption | apply Hk].
Qed.

Lemma emits_for_each P {A} (l : list A) (body : A -> M W unit) :
  (forall x, emits P (body x)) -> emits P (for_each l body).
Proof.
  intros Hb. induction l as [|x l IH]; simpl.
  - apply emits_ret.
  - apply emits_bind; auto.
Qed.

Lemma emits_for_fold P {A S} (l : list A) (s : S) (body : S -> A -> M W S) :
  (forall s x, emits P (body s x)) -> emits P (for_fold l s body).
Proof.
  intros Hb. revert s. induction l as [|x l IH]; intros s; simpl.
  - apply emits_ret.
  - apply emits_bind; auto.
Qed.

Lemma emits_try_except P {A} (m : M W A) (h : exn -> M W A) :
  emits P m -> (forall e, emits P (h e)) -> emits P (try_except m h).
Proof.
  intros Hm Hh w. specialize (Hm w). unfold try_except.
  destruct (m w) as [[[a|e] w1] t1]; simpl in *; [assumption|].
  specialize (Hh e w1). destruct (h e w1) as [[r2 w2] t2]. simpl in *.
  apply Forall_app. auto.
Qed.

Lemma emits_weaken (P Q : event -> Prop) {A} (m : M W A) :
  (forall e, P e -> Q e) -> emits P m -> emits Q m.
Proof. intros HPQ Hm w. eapply Forall_impl; [exact HPQ | apply Hm]. Qed.

Lemma readonly_logf l t kw : readonly (@logf W l t kw).
Proof.
  unfold logf. apply readonly_bind; intros;
    [apply readonly_of_result | apply readonly_emit].
Qed.

Lemma emits_logf (P : event -> Prop) l t kw :
  (forall msg, P (Log l msg)) -> emits P (@logf W l t kw).
Proof.
  intros HP. unfold logf. apply emits_bind; intros;
    [apply emits_of_result | apply emits_emit, HP].
Qed.

End RunFacts.

(** ** The fork tool, function by function *)

Section ForkFacts.

Context {W : Type} `{World W}.

Lemma for_each_emit {A} (l : list A) (body : A -> M W unit)
    (g : A -> event) w :
  (forall x w, body x w = (Ok tt, w, [g x])) ->
  for_each l body w = (Ok tt, w, map g l).
Proof.
  intros Hb. induction l as [|x l IH]; simpl; [reflexivity|].
  erewrite bind_ok_eq; [|apply Hb|apply IH]. reflexivity.
Qed.

(** *** Selection *)

Lemma uniq_from_In seen l r :
  In r (uniq_from seen l) ->
  In r l /\ ~ In (Repository.full_name r) seen.
Proof.
  revert seen. induction l as [|x l IH]; intros seen; simpl; [tauto|].
  destruct (Py.mem (Repository.full_name x) seen) eqn:E.
  - intros Hin. apply IH in Hin. tauto.
  - apply mem_not_In in E. intros [->|Hin]; [tauto|].
    apply IH in Hin. simpl in Hin. tauto.
Qed.

Lemma uniq_from_complete seen l r :
  In r l ->
  In (Repository.full_name r) seen \/
  In (Repository.full_name r) (map Repository.full_name (uniq_from seen l)).
Proof.
  revert seen. induction l as [|x l IH]; intros seen; simpl; [tauto|].
  destruct (Py.mem (Repository.full_name x) seen) eqn:E.
  - apply mem_In in E. intros [->|Hin]; [tauto|]. now apply IH.
  - intros [->|Hin]; [simpl; tauto|].
    destruct (IH (Repository.full_name x :: seen) Hin) as [[<-|Hs]|Hr];
      simpl; tauto.
Qed.

Lemma uniq_from_NoDup seen l :
  NoDup (map Repository.full_name (uniq_from seen l)).
Proof.
  revert seen. induction l as [|x l IH]; intros seen; simpl; [constructor|].
  destruct (Py.mem (Repository.full_name x) seen) eqn:E; [apply IH|].
  simpl. constructor; [|apply IH].
  rewrite in_map_iff. intros (r & Hr & Hin).
  apply uniq_from_In in Hin. simpl in Hin. rewrite Hr in Hin. tauto.
Qed.

Lemma find_repos_run args src w :
  team args <> [] ->
  exists tr,
    find_repos args src w
    = (Ok (uniq_from []
             (flat_map (fun t => get_repos t w)
                (filter (fun t => Py.mem (Team.name t) (team args))
                   (get_teams src w)))), w, tr).
Proof.
  intros Hne. unfold find_repos. destruct (team args) as [|t0 ts] eqn:Et;
    [congruence|]. rewrite <- Et.
  unfold bind, debug, call_get_teams, get_repos_by_team; simpl.
  unfold bind; simpl.
  rewrite (for_each_emit _ _ (fun t => Log DEBUG ("  '" ++ Team.name t ++ "'")%string))
    by reflexivity.
  simpl. eexists. reflexivity.
Qed.

End ForkFacts.

(** C2: with [--team] names [T] given, the repositories found are, up
    to their full names, exactly the members of the source teams whose
    name is in [T], none of them twice, however the organisation's teams
    and their repositories stand. *)
Theorem selection_is_team_members {W : Type} `{World W}
    (args : Args) (src : Organization) (w : W) :
  team args <> [] ->
  exists sel tr,
    find_repos args src w = (Ok sel, w, tr) /\
    NoDup (map Repository.full_name sel) /\
    (forall r, In r sel ->
       exists t, In t (get_teams src w) /\ In (Team.name t) (team args) /\
                 In r (get_repos t w)) /\
    (forall t r, In t (get_teams src w) -> In (Team.name t) (team args) ->
       In r (get_repos t w) ->
       In (Repository.full_name r) (map Repository.full_name sel)).
Proof.
  intros Hne. destruct (find_repos_run args src w Hne) as [tr E].
  eexists. exists tr. split; [exact E|]. split; [apply uniq_from_NoDup|].
  split.
  - intros r Hr. apply uniq_from_In in Hr. destruct Hr as [Hr _].
    apply in_flat_map in Hr. destruct Hr as (t & Ht & Hr).
    apply filter_In in Ht. destruct Ht as [Ht Hm]. apply mem_In in Hm.
    exists t. auto.
  - intros t r Ht Hn Hr.
    destruct (uniq_from_complete []
                (flat_map (fun t => get_repos t w)
                   (filter (fun t => Py.mem (Team.name t) (team args))
                      (get_teams src w))) r) as [[]|Hin]; [|exact Hin].
    apply in_flat_map. exists t. split; [|exact Hr].
    apply filter_In. split; [exact Ht|]. now apply mem_In.
Qed.

Lemma selection_is_team_members_witness :
  team (mk_args "A" "B" ["t1"; "t2"] None false) <> [] /\
  exists sel tr,
    find_repos (mk_args "A" "B" ["t1"; "t2"] None false) Scenario.A
      Scenario.github = (Ok sel, Scenario.github, tr) /\
    NoDup (map Repository.full_name sel) /\
    (forall r, In r sel ->
       exists t, In t (get_teams Scenario.A Scenario.github) /\
                 In (Team.name t) ["t1"; "t2"] /\
                 In r (get_repos t Scenario.github)) /\
    (forall t r, In t (get_teams Scenario.A Scenario.github) ->
       In (Team.name t) ["t1"; "t2"] ->
       In r (get_repos t Scenario.github) ->
       In (Repository.full_name r) (map Repository.full_name sel)).
Proof.
  split; [discriminate|].
  apply (selection_is_team_members
           (mk_args "A" "B" ["t1"; "t2"] None false)).
  discriminate.
Defined.

Lemma firstn_min {A} (N : Z) (S : list A) :
  (0 <= N)%Z ->
  firstn (Z.to_nat N) S
  = firstn (Z.to_nat (Z.min N (Z.of_nat (List.length S)))) S.
Proof.
  intros HN. destruct (Z.le_ge_cases N (Z.of_nat (List.length S))) as [Hle|Hge].
  - rewrite Z.min_l by exact Hle. reflexivity.
  - rewrite Z.min_r by exact Hge. rewrite Nat2Z.id.
    rewrite firstn_all. apply firstn_all2. lia.
Qed.

(** C5, as stated, at [--limit -1]: [islice] refuses the limit and there
    is no processed list at all. *)
Lemma negative_limit_counterexample :
  ~ limit_claim (mk_args "A" "B" ["t1"] (Some (-1)%Z) false)
      Scenario.A Scenario.github.
Proof.
  intros Hc. specialize (Hc _ _ _ eq_refl).
  vm_compute in Hc. discriminate Hc.
Qed.

(** C5 (amended): under [--limit N] with [0 <= N <= sys.maxsize] the
    processed list is the first [min(N, |S|)] repositories of the
    unlimited selection [S], in its order; without a limit it is [S]. *)
Theorem limit_takes_prefix {W : Type} `{World W}
    (args : Args) (src : Organization) (w : W) :
  match limit args with
  | Some N => (0 <= N <= Py.maxsize)%Z
  | None => True
  end ->
  limit_claim args src w.
Proof.
  intros Hlim S w1 t Hfind. unfold select_repos.
  rewrite (bind_ok _ _ _ _ _ _ Hfind). simpl. rewrite app_nil_r.
  destruct (limit args) as [N|]; simpl; [|reflexivity].
  destruct Hlim as [H0 Hmax].
  apply Z.leb_le in H0, Hmax. rewrite H0, Hmax. simpl.
  rewrite <- firstn_min by (now apply Z.leb_le). reflexivity.
Qed.

Lemma limit_takes_prefix_witness :
  (0 <= 1 <= Py.maxsize)%Z /\
  limit_claim (mk_args "A" "B" ["t1"] (Some 1%Z) false)
    Scenario.A Scenario.github.
Proof.
  assert (Hr : (0 <= 1 <= Py.maxsize)%Z) by (vm_compute; split; discriminate).
  split; [exact Hr|].
  apply (limit_takes_prefix (mk_args "A" "B" ["t1"] (Some 1%Z) false)).
  exact Hr.
Defined.

(** C8: on the empty list [find_teams_by_repos] raises the [ValueError]
    of [max] over an empty sequence; given at least one repository it
    returns its index. *)
Theorem find_teams_by_repos_needs_a_repo {W : Type} `{World W}
    (src_repos : list Repository.t) (w : W) :
  match src_repos with
  | [] =>
      find_teams_by_repos [] w
      = (Raise (ValueError "max() arg is an empty sequence"), w, [])
  | _ :: _ =>
      exists src_rt tr, find_teams_by_repos src_repos w = (Ok src_rt, w, tr)
  end.
Proof.
  destruct src_repos as [|r0 rs]; [reflexivity|].
  unfold find_teams_by_repos.
  set (rs0 := r0 :: rs) at 2. simpl Py.max_by_len.
  erewrite bind_ok by reflexivity.
  generalize (String.length
                (Py.max_len_from (Repository.full_name r0)
                   (map Repository.full_name rs))) as width.
  intros width. generalize (@Dict.empty (Repository.t * list Team.t)).
  induction rs0 as [|r rs' IH]; intros d; simpl.
  - eexists. eexists. reflexivity.
  - destruct (IH (Dict.set (Repository.full_name r)
                    (r, repo_get_teams r w) d)) as (src_rt & tr & E).
    simpl in E. unfold bind in *. simpl.
    destruct (for_fold rs' _ _ w) as [[r2 w2] t2] eqn:E2.
    simpl in *. inversion E; subst. eexists. eexists. reflexivity.
Qed.

Section ForkLoop.

Context {W : Type} `{World W}.

Lemma create_forks_step_ok dst idx r w f w1 :
  create_fork dst r w = (inr f, w1) ->
  create_forks_step dst idx r w
  = (Ok (S idx), w1,
     fork_turn dst idx r f (Repository.created_at f <? now w)%Z).
Proof.
  intros E. unfold create_forks_step, bind, read, logf, call_create_fork.
  simpl. unfold bind. simpl. rewrite E. simpl.
  unfold fork_turn, already_exists_warning.
  destruct (Repository.created_at f <? now w)%Z; simpl;
    rewrite !append_empty_r; reflexivity.
Qed.

Lemma create_forks_step_raise dst idx r w d w1 :
  create_fork dst r w = (inl d, w1) ->
  create_forks_step dst idx r w
  = (Raise (GithubException d), w1,
     [Log DEBUG ("forking " ++ Repository.full_name r)%string;
      Call (CreateFork dst r)]).
Proof.
  intros E. unfold create_forks_step, bind, read, logf, call_create_fork.
  simpl. unfold bind. simpl. rewrite E, append_empty_r. reflexivity.
Qed.

Lemma warnings_app t1 t2 : warnings (t1 ++ t2) = warnings t1 ++ warnings t2.
Proof. apply flat_map_app. Qed.

Lemma fork_requests_app t1 t2 :
  fork_requests (t1 ++ t2) = fork_requests t1 ++ fork_requests t2.
Proof. apply flat_map_app. Qed.

Lemma create_forks_loop_existing dst (existing : W -> Prop) repos :
  (forall w r, existing w -> In r repos ->
     exists f w1, create_fork dst r w = (inr f, w1) /\
                  (Repository.created_at f < now w)%Z /\ existing w1) ->
  forall idx w, existing w ->
  exists w' tr,
    create_forks_loop dst idx repos w = (Ok (idx + List.length repos)%nat, w', tr)
    /\ existing w' /\ fork_requests tr = repos
    /\ List.length (warnings tr) = List.length repos.
Proof.
  unfold create_forks_loop.
  induction repos as [|r rs IH]; intros Hinv idx w Hw; simpl.
  - exists w, []. rewrite Nat.add_0_r. auto.
  - destruct (Hinv w r Hw (or_introl eq_refl)) as (f & w1 & E & Hlt & Hw1).
    destruct (IH (fun w r Hw Hr => Hinv w r Hw (or_intror Hr)) (S idx) w1 Hw1)
      as (w' & tr & Eloop & Hw' & Hreq & Hwarn).
    exists w'. eexists. split; [|split; [exact Hw'|]].
    + erewrite bind_ok_eq;
        [|apply create_forks_step_ok; exact E|exact Eloop].
      rewrite Nat.add_succ_r. reflexivity.
    + apply Z.ltb_lt in Hlt. rewrite Hlt.
      rewrite fork_requests_app, warnings_app, Hreq, length_app, Hwarn.
      split; reflexivity.
Qed.

End ForkLoop.

(** C4: a fork older than the clock reading taken before its request
    costs one warning and the loop goes on with the next repository;
    hence, where every repository of the list is already forked, the
    fork step asks for each fork once more, warns once per repository
    and ends without an error. *)
Theorem existing_forks_warn_and_continue {W : Type} `{World W}
    (dst : Organization) :
  (forall r idx (w w1 : W) f,
     create_fork dst r w = (inr f, w1) ->
     (Repository.created_at f < now w)%Z ->
     create_forks_step dst idx r w
     = (Ok (S idx), w1, fork_turn dst idx r f true))
  /\
  (forall (existing : W -> Prop) repos,
     (forall w r, existing w -> In r repos ->
        exists f w1, create_fork dst r w = (inr f, w1) /\
                     (Repository.created_at f < now w)%Z /\ existing w1) ->
     forall w, existing w ->
     exists w' tr,
       create_forks dst repos w = (Ok tt, w', tr) /\
       fork_requests tr = repos /\
       List.length (warnings tr) = List.length repos).
Proof.
  split.
  - intros r idx w w1 f E Hlt. rewrite (create_forks_step_ok _ _ _ _ _ _ E).
    apply Z.ltb_lt in Hlt. rewrite Hlt. reflexivity.
  - intros existing repos Hinv w Hw.
    destruct (create_forks_loop_existing dst existing repos Hinv 0%nat w Hw)
      as (w' & tr & E & _ & Hreq & Hwarn).
    exists w', (tr ++ []). split.
    + unfold create_forks. erewrite bind_ok_eq; [reflexivity|exact E|reflexivity].
    + rewrite app_nil_r. auto.
Qed.

Example first_run_forks :
  create_forks Scenario.B [Scenario.x; Scenario.y] Scenario.github
  = (Ok tt, Scenario.forked,
     fork_turn Scenario.B 0 Scenario.x Scenario.Bx false
     ++ fork_turn Scenario.B 1 Scenario.y Scenario.By false).
Proof. vm_compute. reflexivity. Qed.

Lemma existing_forks_warn_and_continue_witness :
  create_forks_step Scenario.B 0 Scenario.x Scenario.forked
  = (Ok 1%nat,
     Sim.mk 106 (Sim.teams Scenario.forked) (Sim.forks Scenario.forked) [],
     fork_turn Scenario.B 0 Scenario.x Scenario.Bx true)
  /\ exists w' tr,
       create_forks Scenario.B [Scenario.x; Scenario.y] Scenario.forked
       = (Ok tt, w', tr) /\
       fork_requests tr = [Scenario.x; Scenario.y] /\
       List.length (warnings tr) = 2%nat.
Proof.
  destruct (existing_forks_warn_and_continue (W := Sim.t) Scenario.B)
    as [Hturn Hrerun].
  split.
  - apply Hturn; reflexivity.
  - apply (Hrerun (fun s => Sim.forks s = [Scenario.Bx; Scenario.By]
                            /\ Sim.faults s = []
                            /\ (104 <= Sim.clock s)%Z)).
    + intros w r (Hf & Hq & Hc) Hr.
      assert (Hnow : (101 < Sim.clock w)%Z /\ (103 < Sim.clock w)%Z
                     /\ (104 <= Sim.clock w + 2)%Z) by lia.
      destruct Hr as [<-|[<-|[]]]; eexists; eexists;
        (split; [simpl; unfold Sim.fork_of; rewrite Hf, Hq; reflexivity|]);
        simpl; intuition.
    + repeat split; simpl; lia.
Defined.

(** ** [create_teams] *)

Section CreateTeams.

Context {W : Type} `{World W}.

Lemma find_first {A} (p : A -> bool) (l : list A) (x : A) :
  find p l = Some x ->
  exists before after,
    l = before ++ x :: after /\ p x = true /\
    Forall (fun y => p y = false) before.
Proof.
  induction l as [|y l IH]; simpl; [discriminate|].
  destruct (p y) eqn:Ey.
  - intros [= ->]. exists [], l. auto.
  - intros Hf. destruct (IH Hf) as (b & a & -> & Hx & Hb).
    exists (y :: b), a. auto.
Qed.

(** With the caller's consent, sub-errors that all say the name is taken
    pass the loop of the handler. *)
Lemma tolerated_errors_pass (data : gh_data)
    (errors : list (option string)) (w : W) :
  Forall name_taken_error errors ->
  exists tr,
    for_each errors (fun oops =>
      bind (item "message" oops) (fun msg =>
      bind (logf ERROR "    {m}" [("m", msg)]) (fun _ =>
        if negb (true && Py.contains "Name has already been taken" msg)
        then raise (GithubException data)
        else ret tt))) w
    = (Ok tt, w, tr).
Proof.
  induction 1 as [|oops errors (msg & -> & Hm) _ (tr & IH)]; simpl.
  - eexists. reflexivity.
  - eexists. erewrite bind_ok_eq; [reflexivity| |exact IH].
    unfold bind, item, logf, bind. simpl. rewrite Hm. reflexivity.
Qed.

Lemma except_create_team_reuse org name data m errors (w : W) :
  d_message data = Some m -> d_errors data = Some errors ->
  Forall name_taken_error errors ->
  exists tr,
    except_create_team org name true data w
    = (match find (fun t => Py.contains (Team.name t) name)
               (get_teams org w) with
       | Some t => Ok t
       | None => Raise StopIteration
       end, w, tr).
Proof.
  intros Hm He Hall. unfold except_create_team. rewrite Hm, He.
  destruct (tolerated_errors_pass data errors w Hall) as (tr & Eloop).
  eexists.
  erewrite bind_ok_eq; [reflexivity|reflexivity|].
  erewrite bind_ok_eq; [reflexivity|reflexivity|].
  erewrite bind_ok_eq; [reflexivity|reflexivity|].
  erewrite bind_ok_eq; [reflexivity|exact Eloop|].
  erewrite bind_ok_eq; [reflexivity|reflexivity|].
  destruct (find _ (get_teams org w)); reflexivity.
Qed.

(** Without the caller's consent the first sub-error sends the exception
    on. *)
Lemma except_create_team_reraise org name data m msg errors (w : W) :
  d_message data = Some m -> d_errors data = Some (Some msg :: errors) ->
  exists tr,
    except_create_team org name false data w
    = (Raise (GithubException data), w, tr).
Proof.
  intros Hm He. unfold except_create_team. rewrite Hm, He.
  eexists. unfold bind, item, logf, bind. simpl. reflexivity.
Qed.

(** Every turn of the loop of [create_teams] stops at its first line: the
    template names a field [o], the keyword passed is [org]. *)
Lemma create_teams_KeyError org name repos teams with_repos ignore_existing
    (w : W) :
  create_teams org ((name, repos) :: teams) with_repos ignore_existing w
  = (Raise (KeyError "o"), w,
     [Log DEBUG ("creating teams in " ++ login org)%string]).
Proof.
  unfold create_teams, bind, logf, bind. simpl.
  rewrite append_empty_r. reflexivity.
Qed.

End CreateTeams.

(** C9: when the creation of team [name] fails, the caller tolerates it
    and every sub-error says the name is taken, lines 130-153 take the
    first team of the organisation whose name occurs inside [name], and
    store it under its own name; with no such team they raise
    [StopIteration]. *)
Theorem reuse_takes_first_substring_team {W : Type} `{World W}
    (org : Organization) (name : string) (repos : list Repository.t)
    (with_repos : bool) (dst_teams : Dict.t Team.t)
    (data : gh_data) (m : string) (errors : list (option string))
    (w w1 : W) (t1 : list event) :
  try_create_team org name repos with_repos w
  = (Raise (GithubException data), w1, t1) ->
  d_message data = Some m -> d_errors data = Some errors ->
  Forall name_taken_error errors ->
  exists tr,
    match find (fun t => Py.contains (Team.name t) name)
            (get_teams org w1) with
    | Some t =>
        create_or_reuse_team org name repos with_repos true dst_teams w
        = (Ok (Dict.set (Team.name t) t dst_teams), w1, tr)
        /\ exists before after,
             get_teams org w1 = before ++ t :: after /\
             Py.contains (Team.name t) name = true /\
             Forall (fun t' => Py.contains (Team.name t') name = false)
               before
    | None =>
        create_or_reuse_team org name repos with_repos true dst_teams w
        = (Raise StopIteration, w1, tr)
    end.
Proof.
  intros Etry Hm He Hall.
  destruct (except_create_team_reuse org name data m errors w1 Hm He Hall)
    as (tr & Eexc).
  unfold create_or_reuse_team.
  destruct (find _ (get_teams org w1)) as [t|] eqn:Ef.
  - eexists. split; [|exact (find_first _ _ _ Ef)].
    erewrite bind_ok_eq; [reflexivity| |reflexivity].
    unfold try_except. rewrite Etry, Eexc. reflexivity.
  - eexists. apply bind_raise.
    unfold try_except. rewrite Etry, Eexc. reflexivity.
Qed.

Lemma reuse_takes_first_substring_team_witness :
  exists tr,
    create_or_reuse_team Scenario.B "t1" [Scenario.x; Scenario.y] true true
      Dict.empty Scenario.github_with_t
    = (Ok [("t", Scenario.Bt)], Scenario.github_with_t, tr)
    /\ exists before after,
         get_teams Scenario.B Scenario.github_with_t
         = before ++ Scenario.Bt :: after /\
         Py.contains "t" "t1" = true /\
         Forall (fun t' => Py.contains (Team.name t') "t1" = false) before.
Proof.
  refine (reuse_takes_first_substring_team Scenario.B "t1"
            [Scenario.x; Scenario.y] true Dict.empty Sim.name_taken
            "Validation Failed" [Some "Name has already been taken"]
            Scenario.github_with_t Scenario.github_with_t _ _ _ _ _).
  - reflexivity.
  - reflexivity.
  - reflexivity.
  - constructor; [|constructor]. eexists. split; reflexivity.
Defined.

Section CreationFailure.

Context {W : Type} `{World W}.






End CreationFailure.



(** C3, at the end-to-end scenario: [x] and [y] are forked, then
    [create_teams] stops with [KeyError] at its first debug line; no team
    is asked for, [B] has none afterwards, the exit status is 1.  And the
    request [main] would have [create_teams] make, [with_repos] left
    false, names no repository. *)
Theorem scenario_creates_no_team :
  let '(res, w', tr) := main (Scenario.args true) Scenario.github in
  res = Raise (KeyError "o") /\ exit_status res = 1%Z /\
  fork_requests tr = [Scenario.x; Scenario.y] /\
  Forall (fun e => ~ is_team_request e) tr /\
  get_teams Scenario.B w' = [] /\
  snd (try_create_team Scenario.B "t1" [Scenario.x; Scenario.y] false w')
  = [Call (CreateTeam Scenario.B "t1" None)].
Proof.
  vm_compute. repeat split; try reflexivity.
  repeat constructor; intros [].
Qed.

(** ** Stages of a run *)

Lemma staged_nil (ss : list stage) : staged ss [].
Proof.
  induction ss as [|s ss IH]; simpl; [reflexivity|].
  exists [], []. auto.
Qed.

Lemma staged_first (s : stage) (ss : list stage) (t1 t2 : list event) :
  Forall (in_stage s) t1 -> staged ss t2 -> staged (s :: ss) (t1 ++ t2).
Proof. intros H1 H2. exists t1, t2. auto. Qed.

Lemma staged_more (s : stage) (ss : list stage) (t1 t2 : list event) :
  Forall (in_stage s) t1 -> staged (s :: ss) t2 ->
  staged (s :: ss) (t1 ++ t2).
Proof.
  intros H1 (a & b & -> & Ha & Hb). exists (t1 ++ a), b.
  rewrite app_assoc. split; [reflexivity|]. split; [|exact Hb].
  apply Forall_app. auto.
Qed.

Lemma staged_skip (s : stage) (ss : list stage) (t : list event) :
  staged ss t -> staged (s :: ss) t.
Proof. intros Ht. exists [], t. auto. Qed.

Lemma staged_app (ss1 ss2 : list stage) (t1 t2 : list event) :
  staged ss1 t1 -> staged ss2 t2 -> staged (ss1 ++ ss2) (t1 ++ t2).
Proof.
  revert t1. induction ss1 as [|s ss1 IH]; intros t1; simpl.
  - intros -> H2. exact H2.
  - intros (a & b & -> & Ha & Hb) H2. exists a, (b ++ t2).
    rewrite app_assoc. auto.
Qed.

Section StagedRuns.

Context {W : Type} `{World W}.

Lemma staged_run_emits s ss {A} (m : M W A) :
  emits (in_stage s) m -> staged_run (s :: ss) m.
Proof.
  intros Hm w. rewrite <- (app_nil_r (snd (m w))).
  apply staged_first; [apply Hm | apply staged_nil].
Qed.

Lemma staged_run_more s ss {A B} (m : M W A) (k : A -> M W B) :
  emits (in_stage s) m -> (forall a, staged_run (s :: ss) (k a)) ->
  staged_run (s :: ss) (bind m k).
Proof.
  intros Hm Hk w. specialize (Hm w).
  destruct (bind_cases m k w) as [(a & w1 & t1 & E & ->)|(e & w1 & t1 & E & ->)];
    rewrite E in Hm; simpl in *.
  - apply staged_more; [assumption | apply Hk].
  - rewrite <- (app_nil_r t1). apply staged_first; [assumption | apply staged_nil].
Qed.

Lemma staged_run_then ss1 ss2 {A B} (m : M W A) (k : A -> M W B) :
  staged_run ss1 m -> (forall a, staged_run ss2 (k a)) ->
  staged_run (ss1 ++ ss2) (bind m k).
Proof.
  intros Hm Hk w. specialize (Hm w).
  destruct (bind_cases m k w) as [(a & w1 & t1 & E & ->)|(e & w1 & t1 & E & ->)];
    rewrite E in Hm; simpl in *.
  - apply staged_app; [assumption | apply Hk].
  - rewrite <- (app_nil_r t1). apply staged_app; [assumption | apply staged_nil].
Qed.

End StagedRuns.

(** Each function of the tool only reads the world, or not, and stays
    within its stage. *)

Create HintDb quiet.

#[local] Hint Resolve readonly_ret readonly_raise readonly_emit
  readonly_read readonly_of_result readonly_logf : quiet.
#[local] Hint Resolve emits_ret emits_raise emits_read emits_of_result
  emits_logf : quiet.

Ltac quiet_step :=
  first
    [ apply readonly_bind | apply readonly_for_each | apply readonly_for_fold
    | apply emits_bind | apply emits_for_each | apply emits_for_fold
    | apply emits_try_except
    | apply emits_emit
    | solve [auto with quiet]
    | exact I
    | reflexivity
    | match goal with
      | |- context [match ?x with _ => _ end] => destruct x
      end ].

Ltac quiet := repeat (intros; quiet_step).

Section StagesOfFunctions.

Context {W : Type} `{World W}.

Lemma readonly_open_orgs args : readonly (open_orgs args).
Proof. unfold open_orgs, call_get_organization. quiet. Qed.

Lemma readonly_find_repos args src : readonly (find_repos args src).
Proof.
  unfold find_repos, call_get_teams, get_repos_by_team, debug. quiet.
Qed.

Lemma readonly_select_repos args src : readonly (select_repos args src).
Proof.
  unfold select_repos. apply readonly_bind;
    [apply readonly_find_repos | intros; apply readonly_of_result].
Qed.

Lemma readonly_find_teams_by_repos repos :
  readonly (find_teams_by_repos repos).
Proof.
  unfold find_teams_by_repos, call_repo_get_teams, debug. quiet.
Qed.

Lemma readonly_check_teams src dst repos :
  readonly (check_teams src dst repos).
Proof.
  unfold check_teams, debug, call_get_teams.
  apply readonly_bind; [quiet|intros].
  apply readonly_bind; [apply readonly_find_teams_by_repos|intros].
  quiet.
Qed.

Lemma emits_open_orgs args : emits (in_stage SELECT) (open_orgs args).
Proof. unfold open_orgs, call_get_organization. quiet. Qed.

Lemma emits_find_repos args src :
  emits (in_stage SELECT) (find_repos args src).
Proof.
  unfold find_repos, call_get_teams, get_repos_by_team, debug. quiet.
Qed.

Lemma emits_select_repos args src :
  emits (in_stage SELECT) (select_repos args src).
Proof.
  unfold select_repos. apply emits_bind;
    [apply emits_find_repos | intros; apply emits_of_result].
Qed.

Lemma emits_find_teams_by_repos repos :
  emits (in_stage CAPTURE_TEAMS) (find_teams_by_repos repos).
Proof.
  unfold find_teams_by_repos, call_repo_get_teams, debug. quiet.
Qed.

Lemma emits_create_forks dst repos :
  emits (in_stage FORK_ALL) (create_forks dst repos).
Proof.
  unfold create_forks, create_forks_loop, create_forks_step.
  apply emits_bind; [|quiet]. apply emits_for_fold. intros idx r.
  apply emits_bind; [quiet|intros].
  apply emits_bind; [quiet|intros].
  apply emits_bind.
  { intros w. unfold call_create_fork.
    destruct (create_fork dst r w) as [[d|f] w1]; repeat constructor. }
  quiet.
Qed.

Lemma emits_create_teams dst teams with_repos ignore_existing :
  emits (in_stage CREATE_TEAMS)
    (create_teams dst teams with_repos ignore_existing).
Proof.
  unfold create_teams, create_or_reuse_team.
  apply emits_bind; [quiet|intros]. apply emits_for_fold.
  intros dst_teams [name repos].
  apply emits_bind; [quiet|intros].
  apply emits_bind; [|quiet].
  assert (Hcall : forall rn, emits (in_stage CREATE_TEAMS)
                               (call_create_team dst name rn)).
  { intros rn w. unfold call_create_team.
    destruct (create_team dst name rn w) as [[d|t] w1]; repeat constructor. }
  apply emits_try_except.
  - unfold try_create_team, debug. destruct with_repos; [|apply Hcall].
    apply emits_bind; [quiet|intros].
    apply emits_bind; [quiet|intros]. apply Hcall.
  - intros e. destruct e; try apply emits_raise.
    unfold except_create_team, item, call_get_teams. quiet.
Qed.

End StagesOfFunctions.

Section StagesOfMain.

Context {W : Type} `{World W}.

Lemma staged_Forall (P : event -> Prop) ss t :
  (forall s e, In s ss -> in_stage s e -> P e) -> staged ss t -> Forall P t.
Proof.
  revert t. induction ss as [|s ss IH]; intros t HP; simpl.
  - intros ->. constructor.
  - intros (a & b & -> & Ha & Hb). apply Forall_app. split.
    + eapply Forall_impl; [|exact Ha]. intros e. apply HP. now left.
    + apply IH; [|exact Hb]. intros s' e Hs. apply HP. now right.
Qed.

Lemma staged_check_teams src dst repos :
  staged_run [CAPTURE_TEAMS; CHECK_CONFLICTS] (check_teams src dst repos).
Proof.
  unfold check_teams.
  apply staged_run_more; [unfold debug; quiet|intros].
  apply (staged_run_then [CAPTURE_TEAMS] [CHECK_CONFLICTS]).
  - apply staged_run_emits, emits_find_teams_by_repos.
  - intros src_rt. apply staged_run_emits.
    unfold debug, call_get_teams. quiet.
Qed.

Lemma staged_main args :
  staged_run [SELECT; CAPTURE_TEAMS; CHECK_CONFLICTS; FORK_ALL; CREATE_TEAMS]
    (main args).
Proof.
  unfold main.
  apply staged_run_more; [apply emits_open_orgs|intros [src dst]].
  apply staged_run_more; [apply emits_select_repos|intros repos].
  destruct (List.length repos).
  { apply staged_run_emits. unfold debug. quiet. }
  apply staged_run_more; [quiet|intros].
  apply (staged_run_then [SELECT]
           [CAPTURE_TEAMS; CHECK_CONFLICTS; FORK_ALL; CREATE_TEAMS]).
  { apply staged_run_emits. quiet. }
  intros _. unfold fork_selection.
  apply (staged_run_then [CAPTURE_TEAMS; CHECK_CONFLICTS]
           [FORK_ALL; CREATE_TEAMS]).
  { destruct (copy_teams args); [apply staged_check_teams|].
    intros w. apply staged_nil. }
  intros src_teams.
  apply staged_run_more; [unfold debug; quiet|intros].
  apply (staged_run_then [FORK_ALL] [CREATE_TEAMS]).
  { apply staged_run_emits, emits_create_forks. }
  intros _. apply staged_run_emits.
  destruct (copy_teams args); [|apply emits_ret].
  apply emits_bind; [apply emits_create_teams|intros; apply emits_ret].
Qed.

Lemma staged_main_plain args :
  copy_teams args = false ->
  staged_run [SELECT; FORK_ALL] (main args).
Proof.
  intros Hc. unfold main, fork_selection. rewrite Hc.
  apply staged_run_more; [apply emits_open_orgs|intros [src dst]].
  apply staged_run_more; [apply emits_select_repos|intros repos].
  destruct (List.length repos).
  { apply staged_run_emits. unfold debug. quiet. }
  apply staged_run_more; [quiet|intros].
  apply (staged_run_then [SELECT] [FORK_ALL]).
  { apply staged_run_emits. quiet. }
  intros _.
  apply (staged_run_then [] [FORK_ALL]).
  { intros w. reflexivity. }
  intros src_teams. apply staged_run_emits.
  apply emits_bind; [unfold debug; quiet|intros].
  apply emits_bind; [apply emits_create_forks|intros; apply emits_ret].
Qed.
End StagesOfMain.

(** ** [main], stage by stage *)

Section MainFacts.

Context {W : Type} `{World W}.

Lemma readonly_run {A} (m : M W A) w r w' t :
  readonly m -> m w = (r, w', t) -> w' = w.
Proof. intros R E. specialize (R w). rewrite E in R. exact R. Qed.

Lemma conflict_loop (dst : Organization) (names keys acc : list string)
    (w : W) :
  for_fold keys acc (fun conflicting_teams src_t_name =>
    bind (logf DEBUG "  looking for team: '{t}'" [("t", src_t_name)])
      (fun _ =>
         if Py.mem src_t_name names then
           bind (logf ERROR "    {o}/'{t}' already exists"
                   [("o", login dst); ("t", src_t_name)])
             (fun _ => ret (conflicting_teams ++ [src_t_name]))
         else ret conflicting_teams)) w
  = (Ok (acc ++ filter (fun n => Py.mem n names) keys), w,
     flat_map (fun n =>
                 Log DEBUG ("  looking for team: '" ++ n ++ "'")%string
                 :: (if Py.mem n names then [exists_error dst n] else []))
       keys).
Proof.
  revert acc. induction keys as [|n keys IH]; intros acc; simpl.
  - rewrite app_nil_r. reflexivity.
  - destruct (Py.mem n names) eqn:Em.
    + etransitivity; [eapply bind_ok_eq; [|apply IH]|].
      * unfold bind, logf, bind. simpl. reflexivity.
      * rewrite <- app_assoc. reflexivity.
    + etransitivity; [eapply bind_ok_eq; [|apply IH]|].
      * unfold bind, logf, bind. simpl. reflexivity.
      * reflexivity.
Qed.

Lemma check_teams_conflict src dst repos (w w2 : W) src_rt t2 :
  find_teams_by_repos repos w = (Ok src_rt, w2, t2) ->
  (exists n, In n (Dict.keys (find_used_teams src_rt)) /\
             In n (map Team.name (get_teams dst w2))) ->
  exists tr,
    check_teams src dst repos w = (Raise (SystemExit 1), w, tr) /\
    forall n, In n (Dict.keys (find_used_teams src_rt)) ->
              In n (map Team.name (get_teams dst w2)) ->
              In (exists_error dst n) tr /\ In (conflict_error n) tr.
Proof.
  intros Hfind (n0 & Hk0 & Hd0).
  assert (w2 = w)
    by exact (readonly_run _ _ _ _ _ (readonly_find_teams_by_repos repos) Hfind).
  subst w2.
  set (keys := Dict.keys (find_used_teams src_rt)) in *.
  set (names := map Team.name (get_teams dst w)) in *.
  assert (Hconf : forall n, In n keys -> In n names ->
                            In n (filter (fun n => Py.mem n names) keys)).
  { intros n Hk Hd. apply filter_In. split; [exact Hk|]. now apply mem_In. }
  destruct (filter (fun n => Py.mem n names) keys) as [|c cs] eqn:Ef.
  { destruct (Hconf n0 Hk0 Hd0). }
  eexists. split.
  - unfold check_teams.
    eapply bind_ok_eq; [reflexivity|].
    eapply bind_ok_eq; [exact Hfind|]. cbn zeta.
    eapply bind_ok_eq; [reflexivity|].
    eapply bind_ok_eq.
    { apply (for_each_emit _ _ (fun t => Log DEBUG ("  '" ++ t ++ "'")%string)).
      reflexivity. }
    eapply bind_ok_eq; [reflexivity|].
    eapply bind_ok_eq; [reflexivity|].
    eapply bind_ok_eq; [apply (conflict_loop dst)|].
    fold keys names. rewrite Ef. cbn [app].
    eapply bind_ok_eq; [reflexivity|].
    eapply bind_ok_eq; [|reflexivity].
    apply (for_each_emit _ _ conflict_error). reflexivity.
  - intros n Hk Hd. specialize (Hconf n Hk Hd).
    assert (F1 : In (exists_error dst n)
                   (flat_map (fun n =>
                      Log DEBUG ("  looking for team: '" ++ n ++ "'")%string
                      :: (if Py.mem n names then [exists_error dst n] else []))
                      keys)).
    { apply in_flat_map. exists n. split; [exact Hk|].
      apply mem_In in Hd. rewrite Hd. simpl. auto. }
    assert (F2 : In (conflict_error n) (map conflict_error (c :: cs)))
      by (apply in_map; exact Hconf).
    split; rewrite !in_app_iff; tauto.
Qed.
Lemma emits_run P {A} (m : M W A) w r w' t :
  emits P m -> m w = (r, w', t) -> Forall P t.
Proof. intros R E. specialize (R w). rewrite E in R. exact R. Qed.

Lemma main_selected args (w w0 w1 : W) src dst t0 repos t1 r w' t :
  open_orgs args w = (Ok (src, dst), w0, t0) ->
  select_repos args src w0 = (Ok repos, w1, t1) ->
  repos <> [] ->
  fork_selection args src dst repos w1 = (r, w', t) ->
  exists pre,
    Forall (in_stage SELECT) pre /\ main args w = (r, w', pre ++ t).
Proof.
  intros Hopen Hsel Hne Hrest.
  exists (t0 ++ t1
          ++ [Log DEBUG ("found " ++ Py.str_of_nat (List.length repos)
                         ++ " repos to be forked from org " ++ login src
                         ++ ":")%string]
          ++ map (fun r => Log DEBUG ("  " ++ Repository.full_name r)%string)
               repos).
  split.
  - repeat (apply Forall_app; split).
    + exact (emits_run _ _ _ _ _ _ (emits_open_orgs args) Hopen).
    + exact (emits_run _ _ _ _ _ _ (emits_select_repos args src) Hsel).
    + repeat constructor.
    + apply Forall_forall. intros e He. apply in_map_iff in He.
      destruct He as (x & <- & _). exact I.
  - unfold main. rewrite <- !app_assoc.
    eapply bind_ok_eq; [exact Hopen|]. cbn beta iota.
    eapply bind_ok_eq; [exact Hsel|].
    destruct repos as [|r0 rs]; [congruence|]. cbn [List.length].
    eapply bind_ok_eq; [reflexivity|].
    eapply bind_ok_eq; [|exact Hrest].
    apply for_each_emit. intros x wx. unfold logf, bind. simpl.
    rewrite append_empty_r. reflexivity.
Qed.

Lemma select_is_quiet e : in_stage SELECT e ->
  ~ is_fork_request e /\ ~ is_team_request e.
Proof. destruct e as [l m|[]|i]; simpl; intuition discriminate. Qed.

Lemma check_teams_is_quiet src dst repos (w : W) :
  no_request (snd (check_teams src dst repos w)).
Proof.
  apply (staged_Forall _ [CAPTURE_TEAMS; CHECK_CONFLICTS]);
    [|apply staged_check_teams].
  intros s e [<-|[<-|[]]]; destruct e as [l m|[]|i]; simpl;
    intuition discriminate.
Qed.

Lemma create_forks_asks_no_team dst repos (w : W) :
  Forall (fun e => ~ is_team_request e) (snd (create_forks dst repos w)).
Proof.
  eapply Forall_impl; [|apply emits_create_forks].
  intros [l m|[]|i]; simpl; intuition discriminate.
Qed.

Lemma find_teams_by_repos_nonempty repos (w w2 : W) src_rt t2 :
  find_teams_by_repos repos w = (Ok src_rt, w2, t2) -> repos <> [].
Proof. intros E ->. discriminate E. Qed.

Lemma fork_selection_check_raises args src dst repos (w wc : W) e tc :
  copy_teams args = true ->
  check_teams src dst repos w = (Raise e, wc, tc) ->
  fork_selection args src dst repos w = (Raise e, wc, tc).
Proof.
  intros Hc E. unfold fork_selection. rewrite Hc. now apply bind_raise.
Qed.

Lemma fork_selection_forks_raise args src dst repos (w w2 wf : W)
    src_teams tc e tf :
  (if copy_teams args then check_teams src dst repos else ret Dict.empty) w
  = (Ok src_teams, w2, tc) ->
  create_forks dst repos w2 = (Raise e, wf, tf) ->
  fork_selection args src dst repos w
  = (Raise e, wf, tc ++ [Log DEBUG "there is no spoon..."] ++ tf).
Proof.
  intros Ec Ef. unfold fork_selection.
  eapply bind_ok_eq; [exact Ec|].
  eapply bind_ok_eq; [reflexivity|]. now apply bind_raise.
Qed.

End MainFacts.

(** C1: under [--copy-teams], when a team name of the team-usage index
    of the selection is also the name of a team of the destination, the
    run ends with exit status 1, both error messages are printed for
    every such name, the world is as it was, and no fork and no team was
    asked for. *)
Theorem conflicting_teams_stop_the_run {W : Type} `{World W}
    (args : Args) (w w0 w1 w2 : W) (src dst : Organization)
    (repos : list Repository.t)
    (src_rt : Dict.t (Repository.t * list Team.t))
    (t0 t1 t2 : list event) :
  copy_teams args = true ->
  open_orgs args w = (Ok (src, dst), w0, t0) ->
  select_repos args src w0 = (Ok repos, w1, t1) ->
  find_teams_by_repos repos w1 = (Ok src_rt, w2, t2) ->
  (exists n, In n (Dict.keys (find_used_teams src_rt)) /\
             In n (map Team.name (get_teams dst w2))) ->
  exists tr,
    main args w = (Raise (SystemExit 1), w, tr) /\
    exit_status (fst (fst (main args w))) = 1%Z /\
    (forall n, In n (Dict.keys (find_used_teams src_rt)) ->
               In n (map Team.name (get_teams dst w2)) ->
               In (exists_error dst n) tr /\ In (conflict_error n) tr) /\
    no_request tr.
Proof.
  intros Hcopy Hopen Hsel Hfind Hex.
  destruct (check_teams_conflict src dst repos w1 w2 src_rt t2 Hfind Hex)
    as (tc & Echeck & Hrep).
  pose proof (fork_selection_check_raises args src dst repos _ _ _ _
                Hcopy Echeck) as Erest.
  destruct (main_selected args w w0 w1 src dst t0 repos t1 _ _ _
              Hopen Hsel (find_teams_by_repos_nonempty _ _ _ _ _ Hfind) Erest)
    as (pre & Hpre & Emain).
  assert (w0 = w)
    by exact (readonly_run _ _ _ _ _ (readonly_open_orgs args) Hopen).
  subst w0.
  assert (w1 = w)
    by exact (readonly_run _ _ _ _ _ (readonly_select_repos args src) Hsel).
  subst w1.
  exists (pre ++ tc). split; [exact Emain|]. split; [now rewrite Emain|].
  split.
  - intros n Hk Hd. destruct (Hrep n Hk Hd) as [F1 F2].
    rewrite !in_app_iff. auto.
  - apply Forall_app. split.
    + eapply Forall_impl; [|exact Hpre]. exact select_is_quiet.
    + pose proof (check_teams_is_quiet src dst repos w) as Q.
      rewrite Echeck in Q. exact Q.
Qed.

Lemma conflicting_teams_stop_the_run_witness :
  exists tr,
    main (Scenario.args true) Scenario.github_with_t1
    = (Raise (SystemExit 1), Scenario.github_with_t1, tr) /\
    exit_status (fst (fst (main (Scenario.args true)
                             Scenario.github_with_t1))) = 1%Z /\
    In (conflict_error "t1") tr /\ no_request tr.
Proof.
  edestruct (conflicting_teams_stop_the_run (Scenario.args true)
               Scenario.github_with_t1)
    as (tr & Emain & Hexit & Hrep & Hquiet).
  - reflexivity.
  - reflexivity.
  - reflexivity.
  - reflexivity.
  - exists "t1". split; simpl; auto.
  - exists tr. split; [exact Emain|]. split; [exact Hexit|].
    split; [|exact Hquiet].
    apply Hrep; simpl; auto.
Defined.

(** C7: the events of every run come stage by stage, [SELECT], then
    [CAPTURE_TEAMS] and [CHECK_CONFLICTS] (only under [--copy-teams]),
    then [FORK_ALL], then [CREATE_TEAMS] (only under [--copy-teams]); a
    selection that fails ends the run there; a conflict check that fails
    ends the run with no fork and no team asked for; a fork that fails
    ends the run with the trace of the forks, and no team asked for. *)
Theorem stages_run_in_order {W : Type} `{World W} (args : Args) (w : W) :
  staged [SELECT; CAPTURE_TEAMS; CHECK_CONFLICTS; FORK_ALL; CREATE_TEAMS]
    (snd (main args w))
  /\ (copy_teams args = false -> staged [SELECT; FORK_ALL] (snd (main args w)))
  /\ (forall src dst w0 t0,
        open_orgs args w = (Ok (src, dst), w0, t0) ->
        (forall e w1 t1,
           select_repos args src w0 = (Raise e, w1, t1) ->
           main args w = (Raise e, w1, t0 ++ t1))
        /\
        (forall repos w1 t1,
           select_repos args src w0 = (Ok repos, w1, t1) -> repos <> [] ->
           (forall e wc tc,
              copy_teams args = true ->
              check_teams src dst repos w1 = (Raise e, wc, tc) ->
              exists pre,
                main args w = (Raise e, wc, pre ++ tc) /\
                no_request (pre ++ tc))
           /\
           (forall src_teams w2 tc e wf tf,
              (if copy_teams args then check_teams src dst repos
               else ret Dict.empty) w1 = (Ok src_teams, w2, tc) ->
              create_forks dst repos w2 = (Raise e, wf, tf) ->
              exists pre,
                main args w = (Raise e, wf, pre ++ tf) /\
                no_request pre /\
                Forall (fun e => ~ is_team_request e) (pre ++ tf)))).
Proof.
  split; [apply staged_main|]. split; [intros Hc; now apply staged_main_plain|].
  intros src dst w0 t0 Hopen. split.
  { intros e w1 t1 Hsel. unfold main.
    eapply bind_ok_eq; [exact Hopen|]. cbn beta iota.
    now apply bind_raise. }
  intros repos w1 t1 Hsel Hne. split.
  - intros e wc tc Hcopy Echeck.
    pose proof (fork_selection_check_raises args src dst repos _ _ _ _
                  Hcopy Echeck) as Erest.
    destruct (main_selected args w w0 w1 src dst t0 repos t1 _ _ _
                Hopen Hsel Hne Erest) as (pre & Hpre & Emain).
    exists pre. split; [exact Emain|]. apply Forall_app. split.
    + eapply Forall_impl; [|exact Hpre]. exact select_is_quiet.
    + pose proof (check_teams_is_quiet src dst repos w1) as Q.
      rewrite Echeck in Q. exact Q.
  - intros src_teams w2 tc e wf tf Echeck Eforks.
    pose proof (fork_selection_forks_raise args src dst repos _ _ _ _ _ _ _
                  Echeck Eforks) as Erest.
    destruct (main_selected args w w0 w1 src dst t0 repos t1 _ _ _
                Hopen Hsel Hne Erest) as (pre & Hpre & Emain).
    assert (Hq : no_request (pre ++ tc ++ [Log DEBUG "there is no spoon..."])).
    { apply Forall_app. split.
      - eapply Forall_impl; [|exact Hpre]. exact select_is_quiet.
      - apply Forall_app. split; [|repeat constructor; simpl; tauto].
        destruct (copy_teams args).
        + pose proof (check_teams_is_quiet src dst repos w1) as Q.
          rewrite Echeck in Q. exact Q.
        + inversion Echeck. constructor. }
    exists (pre ++ tc ++ [Log DEBUG "there is no spoon..."]).
    split; [rewrite Emain, <- !app_assoc; reflexivity|].
    split; [exact Hq|]. apply Forall_app. split.
    + eapply Forall_impl; [|exact Hq]. simpl. tauto.
    + pose proof (create_forks_asks_no_team dst repos w2) as Q.
      rewrite Eforks in Q. exact Q.
Qed.

Lemma stages_run_in_order_witness :
  exists pre tf wf,
    create_forks Scenario.B [Scenario.x; Scenario.y]
      Scenario.github_fork_fails
    = (Raise (GithubException Scenario.forbidden), wf, tf) /\
    main (Scenario.args true) Scenario.github_fork_fails
    = (Raise (GithubException Scenario.forbidden), wf, pre ++ tf) /\
    no_request pre /\
    Forall (fun e => ~ is_team_request e) (pre ++ tf).
Proof.
  destruct (stages_run_in_order (Scenario.args true)
              Scenario.github_fork_fails) as (_ & _ & Hgate).
  edestruct Hgate as [_ Hsel]; [reflexivity|].
  edestruct Hsel as [_ Hforks]; [reflexivity|discriminate|].
  edestruct Hforks as (pre & Emain & Hq & Hnt); [reflexivity|reflexivity|].
  exists pre. eexists. eexists. split; [reflexivity|].
  split; [exact Emain|]. split; [exact Hq|exact Hnt].
Defined.

(** ** Further properties *)

(** *** Dictionaries *)

Lemma dict_get_set_same {V} (k : string) (v : V) (d : Dict.t V) :
  Dict.get k (Dict.set k v d) = Some v.
Proof.
  unfold Dict.get. induction d as [|[k' v'] d IH]; simpl.
  - now rewrite String.eqb_refl.
  - destruct (String.eqb_spec k' k) as [->|Hne]; simpl.
    + now rewrite String.eqb_refl.
    + apply String.eqb_neq in Hne. now rewrite Hne.
Qed.

Lemma dict_get_set_other {V} (k k' : string) (v : V) (d : Dict.t V) :
  k' <> k -> Dict.get k' (Dict.set k v d) = Dict.get k' d.
Proof.
  intros Hne. unfold Dict.get. induction d as [|[k0 v0] d IH]; simpl.
  - apply not_eq_sym, String.eqb_neq in Hne. now rewrite Hne.
  - destruct (String.eqb_spec k0 k) as [->|Hk]; simpl.
    + apply not_eq_sym, String.eqb_neq in Hne. now rewrite Hne.
    + now rewrite IH.
Qed.

Lemma dict_keys_set {V} (k : string) (v : V) (d : Dict.t V) :
  Dict.keys (Dict.set k v d)
  = if Py.mem k (Dict.keys d) then Dict.keys d else Dict.keys d ++ [k].
Proof.
  unfold Dict.keys, Py.mem. induction d as [|[k' v'] d IH]; simpl;
    [reflexivity|].
  rewrite (String.eqb_sym k k').
  destruct (String.eqb k' k) eqn:E; simpl.
  - apply String.eqb_eq in E. now subst.
  - rewrite IH. now destruct (existsb (String.eqb k) (map fst d)).
Qed.

Lemma dict_get_in_keys {V} (k : string) (d : Dict.t V) :
  In k (Dict.keys d) <-> Dict.get k d <> None.
Proof.
  unfold Dict.keys, Dict.get. induction d as [|[k' v'] d IH]; simpl.
  - tauto.
  - destruct (String.eqb_spec k' k) as [->|Hne].
    + split; [discriminate | auto].
    + rewrite <- IH. tauto.
Qed.

Lemma dict_set_NoDup {V} (k : string) (v : V) (d : Dict.t V) :
  NoDup (Dict.keys d) -> NoDup (Dict.keys (Dict.set k v d)).
Proof.
  intros Hd. rewrite dict_keys_set.
  destruct (Py.mem k (Dict.keys d)) eqn:E; [exact Hd|].
  apply mem_not_In in E. apply NoDup_app; [exact Hd|repeat constructor; simpl; tauto|].
  intros x Hx [<-|[]]. contradiction.
Qed.

(** *** [find_used_teams] *)

Lemma represents_ext {A} (d : Dict.t (list A)) (V V' : string -> list A) :
  (forall n, V n = V' n) -> represents d V -> represents d V'.
Proof.
  intros HV [Hk Hg]. split; [exact Hk|]. intros n. rewrite <- HV. apply Hg.
Qed.

Lemma add_used_team_represents repo d V name :
  represents d V ->
  represents (add_used_team repo d name)
    (fun n => V n ++ if String.eqb name n then [repo] else []).
Proof.
  intros [Hk Hg].
  assert (E : add_used_team repo d name
              = Dict.set name (V name ++ [repo]) d).
  { unfold add_used_team. rewrite Hg. now destruct (V name). }
  rewrite E. split; [now apply dict_set_NoDup|].
  intros n. destruct (String.eqb_spec name n) as [<-|Hne].
  - rewrite dict_get_set_same. now destruct (V name).
  - rewrite dict_get_set_other by congruence. rewrite app_nil_r. apply Hg.
Qed.

Lemma used_teams_of_repo_represents repo names d V :
  represents d V ->
  represents (fold_left (add_used_team repo) names d)
    (fun n => V n ++ flat_map (fun nm => if String.eqb nm n
                                         then [repo] else []) names).
Proof.
  revert d V. induction names as [|nm names IH]; intros d V Hd; simpl.
  - eapply represents_ext; [|exact Hd]. intros n. now rewrite app_nil_r.
  - eapply represents_ext;
      [|apply IH, add_used_team_represents, Hd].
    intros n. simpl. now rewrite <- app_assoc.
Qed.

Lemma find_used_teams_represents src_rt :
  represents (find_used_teams src_rt) (fun n => repos_of_team n src_rt).
Proof.
  unfold find_used_teams, Dict.items.
  assert (G : forall d V, represents d V ->
            represents
              (fold_left
                 (fun used_teams '(_, (repo, teams)) =>
                    fold_left (add_used_team repo) (map Team.name teams)
                      used_teams) src_rt d)
              (fun n => V n ++ repos_of_team n src_rt)).
  { induction src_rt as [|[k [repo teams]] src_rt IH]; intros d V Hd; simpl.
    - eapply represents_ext; [|exact Hd]. intros n. now rewrite app_nil_r.
    - eapply represents_ext;
        [|apply IH, used_teams_of_repo_represents, Hd].
      intros n. simpl. rewrite <- app_assoc. f_equal. f_equal.
      rewrite flat_map_concat_map, map_map, <- flat_map_concat_map.
      reflexivity. }
  apply (G Dict.empty (fun _ => [])). split; [constructor|reflexivity].
Qed.

Lemma repos_of_team_nonempty n src_rt :
  repos_of_team n src_rt <> [] <->
  exists item, In item src_rt /\ In n (map Team.name (snd (snd item))).
Proof.
  unfold repos_of_team. split.
  - intros Hne. destruct (flat_map _ src_rt) as [|r l] eqn:E; [congruence|].
    assert (Hr : In r (r :: l)) by now left. rewrite <- E in Hr.
    apply in_flat_map in Hr. destruct Hr as (item & Hitem & Hr).
    apply in_flat_map in Hr. destruct Hr as (t & Ht & Hr).
    exists item. split; [exact Hitem|]. apply in_map_iff. exists t.
    destruct (String.eqb_spec (Team.name t) n); [auto | destruct Hr].
  - intros (item & Hitem & Hn) E. apply in_map_iff in Hn.
    destruct Hn as (t & <- & Ht).
    assert (Hr : In (fst (snd item))
                   (flat_map (fun item0 =>
                      flat_map (fun t0 =>
                        if String.eqb (Team.name t0) (Team.name t)
                        then [fst (snd item0)] else []) (snd (snd item0)))
                      src_rt)).
    { apply in_flat_map. exists item. split; [exact Hitem|].
      apply in_flat_map. exists t. split; [exact Ht|].
      rewrite String.eqb_refl. now left. }
    rewrite E in Hr. destruct Hr.
Qed.

(** X1: the index of [find_used_teams] has every team name once, and its
    names are exactly those of the teams listed for some repository of
    [src_rt]. *)
Theorem find_used_teams_keys
    (src_rt : Dict.t (Repository.t * list Team.t)) :
  NoDup (Dict.keys (find_used_teams src_rt)) /\
  forall n,
    In n (Dict.keys (find_used_teams src_rt)) <->
    exists item, In item src_rt /\ In n (map Team.name (snd (snd item))).
Proof.
  destruct (find_used_teams_represents src_rt) as [Hk Hg].
  split; [exact Hk|]. intros n.
  rewrite dict_get_in_keys, Hg, <- repos_of_team_nonempty.
  destruct (repos_of_team n src_rt); split; congruence.
Qed.

(** X2: under a team name, [find_used_teams] holds the repositories of
    [src_rt] that list a team of that name, in the order of [src_rt], a
    repository once for each time it lists the name; a name no repository
    lists has no entry. *)
Theorem find_used_teams_values
    (src_rt : Dict.t (Repository.t * list Team.t)) (n : string) :
  Dict.get n (find_used_teams src_rt)
  = match repos_of_team n src_rt with
    | [] => None
    | repos => Some repos
    end.
Proof. apply find_used_teams_represents. Qed.

(** *** [find_teams_by_repos] *)

Lemma dict_set_fresh {V} (k : string) (v : V) (d : Dict.t V) :
  ~ In k (Dict.keys d) -> Dict.set k v d = d ++ [(k, v)].
Proof.
  unfold Dict.keys. induction d as [|[k' v'] d IH]; simpl; [reflexivity|].
  intros Hn. destruct (String.eqb_spec k' k) as [->|Hne]; [tauto|].
  rewrite IH by tauto. reflexivity.
Qed.

Lemma api_calls_app t1 t2 :
  api_calls (t1 ++ t2) = api_calls t1 ++ api_calls t2.
Proof. apply flat_map_app. Qed.

Section TeamsIndex.

Context {W : Type} `{World W}.

Lemma find_teams_loop (width : nat) (repos : list Repository.t)
    (d : Dict.t (Repository.t * list Team.t)) (w : W) :
  NoDup (map Repository.full_name repos) ->
  (forall r, In r repos -> ~ In (Repository.full_name r) (Dict.keys d)) ->
  exists tr,
    for_fold repos d (fun src_rt r =>
      bind (call_repo_get_teams r) (fun teams =>
      bind (debug ("  " ++ Py.rjust width (Repository.full_name r)
                   ++ " " ++ Py.str_of_list (map Team.name teams)))
        (fun _ =>
           ret (Dict.set (Repository.full_name r) (r, teams) src_rt)))) w
    = (Ok (d ++ teams_index w repos), w, tr)
    /\ api_calls tr = map RepoGetTeams repos.
Proof.
  revert d. induction repos as [|r repos IH]; intros d Hnd Hfresh; simpl.
  - exists []. rewrite app_nil_r. auto.
  - inversion Hnd as [|? ? Hr Hnd']; subst.
    destruct (IH (d ++ [(Repository.full_name r, (r, repo_get_teams r w))])
                Hnd') as (tr & E & Hc).
    { intros r' Hr'. unfold Dict.keys. rewrite map_app, in_app_iff. simpl.
      intros [Hin|[Heq|[]]].
      - exact (Hfresh r' (or_intror Hr') Hin).
      - apply Hr. rewrite Heq. now apply in_map. }
    eexists. split.
    + eapply bind_ok_eq; [|rewrite <- app_assoc in E; exact E].
      unfold bind, call_repo_get_teams, bind, emit, read, debug, emit, ret.
      simpl. rewrite dict_set_fresh by (apply Hfresh; now left).
      reflexivity.
    + rewrite api_calls_app, Hc. reflexivity.
Qed.

Lemma find_teams_by_repos_run (src_repos : list Repository.t) (w : W) :
  src_repos <> [] ->
  NoDup (map Repository.full_name src_repos) ->
  exists tr,
    find_teams_by_repos src_repos w = (Ok (teams_index w src_repos), w, tr)
    /\ api_calls tr = map RepoGetTeams src_repos.
Proof.
  intros Hne Hnd. unfold find_teams_by_repos.
  destruct src_repos as [|r0 rs] eqn:Er; [congruence|]. rewrite <- Er in *.
  destruct (find_teams_loop
              (String.length
                 (Py.max_len_from (Repository.full_name r0)
                    (map Repository.full_name rs)))
              src_repos Dict.empty w Hnd) as (tr & E & Hc).
  { intros r _ []. }
  exists tr. split; [|exact Hc].
  rewrite Er at 1. simpl Py.max_by_len.
  eapply (bind_ok_eq _ _ _ _ _ [] _ _ tr); [reflexivity|exact E].
Qed.

Lemma repos_of_team_index (w : W) (n : string)
    (repos : list Repository.t) :
  repos_of_team n (teams_index w repos) = selected_in_team w n repos.
Proof.
  unfold repos_of_team, teams_index, selected_in_team.
  rewrite flat_map_concat_map, map_map, <- flat_map_concat_map.
  reflexivity.
Qed.

End TeamsIndex.

(** X3: given repositories of distinct full names, at least one,
    [find_teams_by_repos] asks GitHub for the teams of each repository
    once, in the order of the list, leaves the world as it is, and
    returns an index with one entry per repository, in that order, under
    its full name, holding the repository and its teams. *)
Theorem find_teams_by_repos_index {W : Type} `{World W}
    (src_repos : list Repository.t) (w : W) :
  src_repos <> [] ->
  NoDup (map Repository.full_name src_repos) ->
  exists tr,
    find_teams_by_repos src_repos w = (Ok (teams_index w src_repos), w, tr)
    /\ api_calls tr = map RepoGetTeams src_repos.
Proof. apply find_teams_by_repos_run. Qed.

Lemma find_teams_by_repos_index_witness :
  [Scenario.x; Scenario.y] <> [] /\
  NoDup (map Repository.full_name [Scenario.x; Scenario.y]) /\
  exists tr,
    find_teams_by_repos [Scenario.x; Scenario.y] Scenario.github
    = (Ok (teams_index Scenario.github [Scenario.x; Scenario.y]),
       Scenario.github, tr)
    /\ api_calls tr = map RepoGetTeams [Scenario.x; Scenario.y].
Proof.
  assert (Hnd : NoDup (map Repository.full_name [Scenario.x; Scenario.y])).
  { repeat constructor; simpl; intuition discriminate. }
  split; [discriminate|]. split; [exact Hnd|].
  apply (find_teams_by_repos_index [Scenario.x; Scenario.y]);
    [discriminate | exact Hnd].
Defined.

(** X4: for a selection of distinct full names, the team-usage index
    built from the index [find_teams_by_repos] returns holds, under each
    team name, the selected repositories GitHub lists in a team of that
    name, in selection order, and nothing under any other name. *)
Theorem usage_index_of_selection {W : Type} `{World W}
    (src_repos : list Repository.t) (w w' : W)
    (src_rt : Dict.t (Repository.t * list Team.t)) (tr : list event)
    (n : string) :
  NoDup (map Repository.full_name src_repos) ->
  find_teams_by_repos src_repos w = (Ok src_rt, w', tr) ->
  Dict.get n (find_used_teams src_rt)
  = match selected_in_team w n src_repos with
    | [] => None
    | repos => Some repos
    end.
Proof.
  intros Hnd E.
  destruct (find_teams_by_repos_run src_repos w
              (find_teams_by_repos_nonempty _ _ _ _ _ E) Hnd)
    as (tr' & E' & _).
  rewrite E in E'. injection E' as -> _ _.
  rewrite <- repos_of_team_index. apply find_used_teams_represents.
Qed.

Lemma usage_index_of_selection_witness :
  NoDup (map Repository.full_name [Scenario.x; Scenario.y]) /\
  Dict.get "t2"
    (find_used_teams (teams_index Scenario.github [Scenario.x; Scenario.y]))
  = Some [Scenario.y].
Proof.
  assert (Hnd : NoDup (map Repository.full_name [Scenario.x; Scenario.y])).
  { repeat constructor; simpl; intuition discriminate. }
  split; [exact Hnd|].
  refine (usage_index_of_selection [Scenario.x; Scenario.y]
            Scenario.github Scenario.github _ _ "t2" Hnd _).
  reflexivity.
Defined.

(** *** [create_forks] *)

Lemma progress_ticks_app t1 t2 :
  progress_ticks (t1 ++ t2) = progress_ticks t1 ++ progress_ticks t2.
Proof. apply flat_map_app. Qed.

Lemma fork_turn_observed dst idx r f warned :
  fork_requests (fork_turn dst idx r f warned) = [r] /\
  progress_ticks (fork_turn dst idx r f warned) = [idx].
Proof. destruct warned; split; reflexivity. Qed.

Section ForkRequests.

Context {W : Type} `{World W}.

Lemma create_forks_loop_requests dst repos idx (w : W) :
  let '(res, _, tr) := create_forks_loop dst idx repos w in
  match res with
  | Ok n =>
      n = (idx + List.length repos)%nat /\ fork_requests tr = repos /\
      progress_ticks tr = seq idx (List.length repos)
  | Raise e =>
      exists d pre r post,
        e = GithubException d /\ repos = pre ++ r :: post /\
        fork_requests tr = pre ++ [r] /\
        progress_ticks tr = seq idx (List.length pre)
  end.
Proof.
  unfold create_forks_loop. revert idx w.
  induction repos as [|r repos IH]; intros idx w; simpl.
  - rewrite Nat.add_0_r. auto.
  - destruct (create_fork dst r w) as [[d|f] w1] eqn:E.
    + erewrite bind_raise by (apply create_forks_step_raise; exact E).
      exists d, [], r, repos. auto.
    + specialize (IH (S idx) w1).
      destruct (for_fold repos (S idx) (create_forks_step dst) w1)
        as [[res w2] t2] eqn:Eloop.
      erewrite bind_ok_eq;
        [|apply create_forks_step_ok; exact E|exact Eloop].
      rewrite fork_requests_app, progress_ticks_app.
      destruct (fork_turn_observed dst idx r f
                  (Repository.created_at f <? now w)%Z) as [-> ->].
      destruct res as [n|e].
      * destruct IH as (-> & -> & ->). rewrite Nat.add_succ_r. auto.
      * destruct IH as (d & pre & r' & post & -> & -> & -> & ->).
        exists d, (r :: pre), r', post. auto.
Qed.

Lemma create_forks_observed dst repos (w : W) :
  let '(res, _, tr) := create_forks dst repos w in
  match res with
  | Ok _ =>
      fork_requests tr = repos /\
      progress_ticks tr = seq 0 (List.length repos)
  | Raise e =>
      exists d pre r post,
        e = GithubException d /\ repos = pre ++ r :: post /\
        fork_requests tr = pre ++ [r] /\
        progress_ticks tr = seq 0 (List.length pre)
  end.
Proof.
  pose proof (create_forks_loop_requests dst repos 0 w) as L.
  unfold create_forks, bind.
  destruct (create_forks_loop dst 0 repos w) as [[[n|e] w1] tr]; simpl.
  - rewrite app_nil_r. tauto.
  - exact L.
Qed.

Lemma emits_create_forks_to dst repos :
  emits (fun e => forall c, e = Call c -> exists r, c = CreateFork dst r)
    (create_forks dst repos).
Proof.
  unfold create_forks, create_forks_loop, create_forks_step.
  apply emits_bind; [|intros; apply emits_ret]. apply emits_for_fold.
  intros idx r.
  apply emits_bind; [apply emits_read|intros].
  apply emits_bind; [apply emits_logf; intros msg c Hc; discriminate Hc|intros].
  apply emits_bind.
  { intros w. unfold call_create_fork.
    destruct (create_fork dst r w) as [[d|f] w1]; repeat constructor;
      intros c [= <-]; eauto. }
  intros. apply emits_bind; [apply emits_logf; intros msg c Hc; discriminate Hc|intros].
  apply emits_bind.
  { destruct (_ <? _)%Z; [apply emits_logf; intros msg c Hc; discriminate Hc
                         |apply emits_ret]. }
  intros. apply emits_bind; [apply emits_emit; discriminate|intros].
  apply emits_ret.
Qed.

Lemma api_calls_of_forks dst tr :
  Forall (fun e => forall c, e = Call c -> exists r, c = CreateFork dst r) tr ->
  api_calls tr = map (CreateFork dst) (fork_requests tr).
Proof.
  induction 1 as [|e tr He _ IH]; simpl; [reflexivity|].
  unfold api_calls, fork_requests in *. simpl. rewrite map_app, IH. f_equal.
  destruct e as [l m|c|i]; try reflexivity.
  destruct (He c eq_refl) as [r ->]. reflexivity.
Qed.

Lemma no_fork_requests tr :
  Forall (fun e => ~ is_fork_request e) tr -> fork_requests tr = [].
Proof.
  induction 1 as [|e tr He _ IH]; simpl; [reflexivity|].
  unfold fork_requests in *. simpl. rewrite IH.
  destruct e as [l m|[]|i]; simpl in *; try reflexivity. tauto.
Qed.

End ForkRequests.

(** X5: [create_forks] asks for the forks in the order of the list, one
    request per repository, with one progress tick, numbered from 0,
    after each fork obtained; it stops at the first request GitHub
    refuses, which is its last request, and the only exception it ends
    with is the [GithubException] of that request. *)
Theorem create_forks_requests_in_order {W : Type} `{World W}
    (dst : Organization) (src_repos : list Repository.t) (w : W) :
  let '(res, _, tr) := create_forks dst src_repos w in
  match res with
  | Ok _ =>
      fork_requests tr = src_repos /\
      progress_ticks tr = seq 0 (List.length src_repos)
  | Raise e =>
      exists d pre r post,
        e = GithubException d /\ src_repos = pre ++ r :: post /\
        fork_requests tr = pre ++ [r] /\
        progress_ticks tr = seq 0 (List.length pre)
  end.
Proof. apply create_forks_observed. Qed.

(** *** [create_teams], as a whole *)

(** X6: given no team, [create_teams] returns an empty dict; given at
    least one, it raises [KeyError] while formatting the first message
    of its loop, whatever [with_repos] and [ignore_existing] are.  Either
    way it calls GitHub not once and leaves the world as it is. *)
Theorem create_teams_makes_no_request {W : Type} `{World W}
    (org : Organization) (teams : Dict.t (list Repository.t))
    (with_repos ignore_existing : bool) (w : W) :
  exists tr,
    create_teams org teams with_repos ignore_existing w
    = (match teams with
       | [] => Ok Dict.empty
       | _ :: _ => Raise (KeyError "o")
       end, w, tr)
    /\ api_calls tr = [].
Proof.
  destruct teams as [|[name repos] teams].
  - eexists. split; [reflexivity|reflexivity].
  - rewrite create_teams_KeyError. eexists. split; reflexivity.
Qed.

(** *** [main]: runs that fork nothing *)

Section QuietRuns.

Context {W : Type} `{World W}.

Lemma main_refused args (w : W) e :
  validate_org (dst_org args) = Raise e ->
  main args w = (Raise e, w, []).
Proof.
  intros E. unfold main, open_orgs, bind, of_result. rewrite E. reflexivity.
Qed.

Lemma main_empty_selection args (w w0 w1 : W) src dst t0 t1 :
  open_orgs args w = (Ok (src, dst), w0, t0) ->
  select_repos args src w0 = (Ok [], w1, t1) ->
  main args w
  = (Raise (SystemExit 0), w,
     t0 ++ t1 ++ [Log DEBUG "nothing to do -- exiting"])
  /\ Forall (in_stage SELECT)
       (t0 ++ t1 ++ [Log DEBUG "nothing to do -- exiting"]).
Proof.
  intros Hopen Hsel.
  assert (w0 = w)
    by exact (readonly_run _ _ _ _ _ (readonly_open_orgs args) Hopen).
  subst w0.
  assert (w1 = w)
    by exact (readonly_run _ _ _ _ _ (readonly_select_repos args src) Hsel).
  subst w1. split.
  - unfold main.
    eapply bind_ok_eq; [exact Hopen|]. cbn beta iota.
    eapply bind_ok_eq; [exact Hsel|]. reflexivity.
  - repeat (apply Forall_app; split).
    + exact (emits_run _ _ _ _ _ _ (emits_open_orgs args) Hopen).
    + exact (emits_run _ _ _ _ _ _ (emits_select_repos args src) Hsel).
    + repeat constructor.
Qed.

Lemma stage_select_no_request tr :
  Forall (in_stage SELECT) tr -> no_request tr.
Proof. apply Forall_impl. exact select_is_quiet. Qed.

End QuietRuns.

(** X7: when [codetools.validate_org] refuses the destination, [main]
    ends with its exception before anything else happens: no message, no
    call to GitHub, the world as it was. *)
Theorem refused_destination_stops_main {W : Type} `{World W}
    (args : Args) (w : W) (e : exn) :
  validate_org (dst_org args) = Raise e ->
  main args w = (Raise e, w, []).
Proof. apply main_refused. Qed.

Lemma refused_destination_stops_main_witness :
  validate_org (W := Sim.t) "lsst"
  = Raise (RuntimeError "protected organisation") /\
  main (mk_args "A" "lsst" ["t1"] None true) Scenario.github
  = (Raise (RuntimeError "protected organisation"), Scenario.github, []).
Proof.
  split; [reflexivity|].
  apply (refused_destination_stops_main (mk_args "A" "lsst" ["t1"] None true)).
  reflexivity.
Defined.

(** X8: when no repository is selected, [main] says there is nothing to
    do and exits with status 0, under [--copy-teams] or not: its trace is
    that of opening the organisations and selecting, then the one
    message; the teams of no repository are read, no fork and no team is
    asked for, and the world is as it was. *)
Theorem empty_selection_exits_0 {W : Type} `{World W}
    (args : Args) (w w0 w1 : W) (src dst : Organization)
    (t0 t1 : list event) :
  open_orgs args w = (Ok (src, dst), w0, t0) ->
  select_repos args src w0 = (Ok [], w1, t1) ->
  main args w
  = (Raise (SystemExit 0), w,
     t0 ++ t1 ++ [Log DEBUG "nothing to do -- exiting"]) /\
  exit_status (fst (fst (main args w))) = 0%Z /\
  api_calls (snd (main args w)) = api_calls t0 ++ api_calls t1 /\
  (forall r, ~ In (Call (RepoGetTeams r)) (snd (main args w))) /\
  no_request (snd (main args w)).
Proof.
  intros Hopen Hsel.
  destruct (main_empty_selection args w w0 w1 src dst t0 t1 Hopen Hsel)
    as [E Hs].
  rewrite E. cbn [fst snd]. split; [reflexivity|]. split; [reflexivity|].
  split; [|split].
  - unfold api_calls. rewrite !flat_map_app. simpl.
    now rewrite app_nil_r.
  - intros r Hin. rewrite Forall_forall in Hs.
    specialize (Hs _ Hin). discriminate Hs.
  - now apply stage_select_no_request.
Qed.

Lemma empty_selection_exits_0_witness :
  exists t0 t1,
    main (mk_args "A" "B" ["no-such-team"] None true) Scenario.github
    = (Raise (SystemExit 0), Scenario.github,
       t0 ++ t1 ++ [Log DEBUG "nothing to do -- exiting"]) /\
    api_calls (snd (main (mk_args "A" "B" ["no-such-team"] None true)
                      Scenario.github))
    = [GetOrganization "A"; GetOrganization "B";
       GetTeams Scenario.A; GetTeams Scenario.A].
Proof.
  edestruct (empty_selection_exits_0
               (mk_args "A" "B" ["no-such-team"] None true) Scenario.github)
    as (E & _ & Hc & _); [reflexivity|reflexivity|].
  eexists. eexists. split; [exact E|]. rewrite Hc. reflexivity.
Defined.

(** X9: [--limit 0] selects nothing, whatever the teams hold: a run that
    opens its organisations and finds its repositories exits with status
    0 without a fork or a team asked for. *)
Theorem limit_0_exits_0 {W : Type} `{World W}
    (args : Args) (w w0 w1 : W) (src dst : Organization)
    (found : list Repository.t) (t0 t1 : list event) :
  limit args = Some 0%Z ->
  open_orgs args w = (Ok (src, dst), w0, t0) ->
  find_repos args src w0 = (Ok found, w1, t1) ->
  exists tr,
    main args w = (Raise (SystemExit 0), w, tr) /\ no_request tr.
Proof.
  intros Hlim Hopen Hfind.
  assert (Hsel : select_repos args src w0 = (Ok [], w1, t1 ++ [])).
  { unfold select_repos. eapply bind_ok_eq; [exact Hfind|].
    rewrite Hlim. reflexivity. }
  destruct (main_empty_selection args w w0 w1 src dst t0 _ Hopen Hsel)
    as [E Hs].
  eexists. split; [exact E|]. now apply stage_select_no_request.
Qed.

Lemma limit_0_exits_0_witness :
  exists tr,
    main (mk_args "A" "B" ["t1"] (Some 0%Z) true) Scenario.github
    = (Raise (SystemExit 0), Scenario.github, tr) /\ no_request tr.
Proof.
  refine (limit_0_exits_0 (mk_args "A" "B" ["t1"] (Some 0%Z) true)
            Scenario.github _ _ _ _ _ _ _ _ _ _); reflexivity.
Defined.

(** *** [main]: which forks it asks for *)

Section MainForks.

Context {W : Type} `{World W}.

Lemma main_selected_calls args (w w0 w1 : W) src dst t0 repos t1 r w' t :
  open_orgs args w = (Ok (src, dst), w0, t0) ->
  select_repos args src w0 = (Ok repos, w1, t1) ->
  repos <> [] ->
  fork_selection args src dst repos w1 = (r, w', t) ->
  exists pre,
    main args w = (r, w', pre ++ t) /\
    api_calls pre = api_calls t0 ++ api_calls t1 /\
    fork_requests pre = [].
Proof.
  intros Hopen Hsel Hne Hrest.
  set (found := Log DEBUG ("found " ++ Py.str_of_nat (List.length repos)
                           ++ " repos to be forked from org " ++ login src
                           ++ ":")%string).
  set (names := map (fun r => Log DEBUG
                                ("  " ++ Repository.full_name r)%string)
                  repos).
  assert (Hnames : api_calls names = [] /\ fork_requests names = []).
  { unfold names. clear. induction repos; simpl; auto. }
  exists (t0 ++ t1 ++ [found] ++ names). split; [|split].
  - unfold main. rewrite <- !app_assoc.
    eapply bind_ok_eq; [exact Hopen|]. cbn beta iota.
    eapply bind_ok_eq; [exact Hsel|].
    destruct repos as [|r0 rs]; [congruence|]. cbn [List.length].
    eapply bind_ok_eq; [reflexivity|].
    eapply bind_ok_eq; [|exact Hrest].
    apply for_each_emit. intros x wx. unfold logf, bind. simpl.
    rewrite append_empty_r. reflexivity.
  - rewrite !api_calls_app. destruct Hnames as [-> _]. simpl.
    now rewrite app_nil_r.
  - rewrite !fork_requests_app. destruct Hnames as [_ ->]. simpl.
    rewrite (no_fork_requests t0), (no_fork_requests t1); [reflexivity| |].
    + eapply Forall_impl;
        [|exact (emits_run _ _ _ _ _ _ (emits_select_repos args src) Hsel)].
      intros e He. now apply select_is_quiet.
    + eapply Forall_impl;
        [|exact (emits_run _ _ _ _ _ _ (emits_open_orgs args) Hopen)].
      intros e He. now apply select_is_quiet.
Qed.

Lemma fork_selection_plain args src dst repos (w wf : W) tf :
  copy_teams args = false ->
  create_forks dst repos w = (Ok tt, wf, tf) ->
  fork_selection args src dst repos w
  = (Ok tt, wf, [Log DEBUG "there is no spoon..."] ++ tf ++ []).
Proof.
  intros Hc Ef. unfold fork_selection. rewrite Hc.
  unfold bind, ret, debug, emit. rewrite Ef. reflexivity.
Qed.

Lemma fork_selection_requests args src dst repos (w : W) :
  exists k,
    fork_requests (snd (fork_selection args src dst repos w))
    = firstn k repos.
Proof.
  unfold fork_selection.
  set (m1 := if copy_teams args then check_teams src dst repos
             else ret Dict.empty).
  assert (Hm1 : fork_requests (snd (m1 w)) = []).
  { apply no_fork_requests. unfold m1. destruct (copy_teams args).
    - eapply Forall_impl; [|apply check_teams_is_quiet]. simpl. tauto.
    - constructor. }
  match goal with |- context [bind m1 ?k] => set (k1 := k) end.
  destruct (bind_cases m1 k1 w)
    as [(a & w1 & t1 & E & ->)|(e & w1 & t1 & E & ->)];
    rewrite E in Hm1; simpl in *.
  2:{ exists 0%nat. exact Hm1. }
  rewrite fork_requests_app, Hm1. simpl. unfold k1.
  erewrite bind_ok by reflexivity. simpl.
  pose proof (create_forks_observed dst repos w1) as Hf.
  match goal with |- context [bind (create_forks dst repos) ?k] =>
    set (k2 := k) end.
  destruct (bind_cases (create_forks dst repos) k2 w1)
    as [(u & wf & tf & Ef & ->)|(e & wf & tf & Ef & ->)];
    rewrite Ef in Hf; simpl in *.
  - destruct Hf as [Hreq _]. exists (List.length repos).
    rewrite fork_requests_app, Hreq, firstn_all.
    rewrite (no_fork_requests (snd (k2 u wf))); [now rewrite app_nil_r|].
    unfold k2. destruct (copy_teams args); [|constructor].
    eapply Forall_impl;
      [|apply (emits_bind (in_stage CREATE_TEAMS));
        [apply emits_create_teams|intros; apply emits_ret]].
    intros [l m|[]|i]; simpl; intuition discriminate.
  - destruct Hf as (d & pre & r & post & _ & -> & Hreq & _).
    exists (List.length (pre ++ [r])). rewrite Hreq.
    change (pre ++ r :: post) with (pre ++ [r] ++ post).
    rewrite app_assoc, firstn_app, firstn_all, Nat.sub_diag. simpl.
    now rewrite app_nil_r.
Qed.

End MainForks.

(** X10: without [--copy-teams], when every fork of the selection is
    obtained, [main] returns normally (exit status 0), and what it asked
    GitHub for is what opening the organisations and selecting asked,
    then one fork into the destination per selected repository, in
    selection order: no team is read or created. *)
Theorem plain_run_forks_the_selection {W : Type} `{World W}
    (args : Args) (w w0 w1 wf : W) (src dst : Organization)
    (repos : list Repository.t) (t0 t1 tf : list event) :
  copy_teams args = false ->
  open_orgs args w = (Ok (src, dst), w0, t0) ->
  select_repos args src w0 = (Ok repos, w1, t1) ->
  repos <> [] ->
  create_forks dst repos w1 = (Ok tt, wf, tf) ->
  exists tr,
    main args w = (Ok tt, wf, tr) /\
    exit_status (fst (fst (main args w))) = 0%Z /\
    api_calls tr
    = api_calls t0 ++ api_calls t1 ++ map (CreateFork dst) repos.
Proof.
  intros Hcopy Hopen Hsel Hne Hforks.
  pose proof (fork_selection_plain args src dst repos w1 wf tf Hcopy Hforks)
    as Erest.
  destruct (main_selected_calls args w w0 w1 src dst t0 repos t1 _ _ _
              Hopen Hsel Hne Erest) as (pre & Emain & Hcalls & _).
  eexists. split; [exact Emain|]. rewrite Emain. split; [reflexivity|].
  rewrite !api_calls_app, Hcalls, <- app_assoc. simpl. rewrite app_nil_r.
  f_equal. f_equal.
  pose proof (create_forks_observed dst repos w1) as Hobs.
  pose proof (emits_create_forks_to dst repos w1) as Hto.
  rewrite Hforks in Hobs, Hto. simpl in Hobs, Hto.
  rewrite (api_calls_of_forks dst tf Hto). now destruct Hobs as [-> _].
Qed.

Lemma plain_run_forks_the_selection_witness :
  exists tr,
    main (Scenario.args false) Scenario.github
    = (Ok tt, Scenario.forked, tr) /\
    exit_status (fst (fst (main (Scenario.args false) Scenario.github)))
    = 0%Z /\
    api_calls tr
    = [GetOrganization "A"; GetOrganization "B";
       GetTeams Scenario.A; GetTeams Scenario.A;
       CreateFork Scenario.B Scenario.x; CreateFork Scenario.B Scenario.y].
Proof.
  edestruct (plain_run_forks_the_selection (Scenario.args false)
               Scenario.github) as (tr & Emain & Hexit & Hcalls).
  - reflexivity.
  - reflexivity.
  - reflexivity.
  - discriminate.
  - reflexivity.
  - exists tr. split; [exact Emain|]. split; [exact Hexit|exact Hcalls].
Defined.

(** X11: in every run that opens its organisations and selects its
    repositories, the forks [main] asks for are the first so many of the
    selection, in selection order, each asked for once: no repository
    outside the selection is ever forked. *)
Theorem main_forks_only_the_selection {W : Type} `{World W}
    (args : Args) (w w0 w1 : W) (src dst : Organization)
    (repos : list Repository.t) (t0 t1 : list event) :
  open_orgs args w = (Ok (src, dst), w0, t0) ->
  select_repos args src w0 = (Ok repos, w1, t1) ->
  exists k, fork_requests (snd (main args w)) = firstn k repos.
Proof.
  intros Hopen Hsel. destruct repos as [|r0 rs].
  - destruct (main_empty_selection args w w0 w1 src dst t0 t1 Hopen Hsel)
      as [E Hs].
    exists 0%nat. rewrite E. simpl. apply no_fork_requests.
    eapply Forall_impl; [|exact Hs]. intros e He.
    now apply select_is_quiet.
  - destruct (fork_selection_requests args src dst (r0 :: rs) w1) as [k Hk].
    destruct (fork_selection args src dst (r0 :: rs) w1) as [[r w'] t] eqn:E.
    destruct (main_selected_calls args w w0 w1 src dst t0 (r0 :: rs) t1 _ _ _
                Hopen Hsel ltac:(discriminate) E)
      as (pre & Emain & _ & Hpre).
    exists k. rewrite Emain. simpl snd.
    rewrite fork_requests_app, Hpre. exact Hk.
Qed.

Lemma main_forks_only_the_selection_witness :
  exists k,
    fork_requests (snd (main (Scenario.args true) Scenario.github_fork_fails))
    = firstn k [Scenario.x; Scenario.y].
Proof.
  refine (main_forks_only_the_selection (Scenario.args true)
            Scenario.github_fork_fails _ _ _ _ _ _ _ _ _); reflexivity.
Defined.

(** *** The conflict check, in full *)

Lemma error_events_app t1 t2 :
  error_events (t1 ++ t2) = error_events t1 ++ error_events t2.
Proof. apply flat_map_app. Qed.

Lemma error_events_none tr :
  Forall (fun e => match e with Log ERROR _ => False | _ => True end) tr ->
  error_events tr = [].
Proof.
  induction 1 as [|e tr He _ IH]; [reflexivity|].
  unfold error_events in *. simpl. rewrite IH.
  destruct e as [[] m|c|i]; simpl in *; tauto.
Qed.

Lemma error_events_all (f : string -> string) (l : list string) :
  error_events (map (fun n => Log ERROR (f n)) l)
  = map (fun n => Log ERROR (f n)) l.
Proof.
  induction l as [|n l IH]; [reflexivity|].
  unfold error_events in *. simpl. now rewrite IH.
Qed.

Lemma error_events_conflicts (l : list string) :
  error_events (map conflict_error l) = map conflict_error l.
Proof.
  exact (error_events_all (fun n => ("  '" ++ n ++ "'")%string) l).
Qed.

Section ConflictCheck.

Context {W : Type} `{World W}.

Lemma find_teams_by_repos_no_error repos :
  emits (fun e => match e with Log ERROR _ => False | _ => True end)
    (find_teams_by_repos repos).
Proof.
  unfold find_teams_by_repos, call_repo_get_teams, debug.
  apply emits_bind; [apply emits_of_result|intros].
  apply emits_for_fold. intros.
  apply emits_bind.
  { apply emits_bind; [apply emits_emit; exact I|intros; apply emits_read]. }
  intros. apply emits_bind; [apply emits_emit; exact I|intros].
  apply emits_ret.
Qed.

Lemma conflict_loop_errors (dst : Organization) (names keys : list string) :
  error_events
    (flat_map (fun n =>
                 Log DEBUG ("  looking for team: '" ++ n ++ "'")%string
                 :: (if Py.mem n names then [exists_error dst n] else []))
       keys)
  = map (exists_error dst) (filter (fun n => Py.mem n names) keys).
Proof.
  induction keys as [|n keys IH]; [reflexivity|].
  cbn [flat_map filter].
  change (Log DEBUG ("  looking for team: '" ++ n ++ "'")%string
          :: (if Py.mem n names then [exists_error dst n] else []))
    with ([Log DEBUG ("  looking for team: '" ++ n ++ "'")%string]
          ++ (if Py.mem n names then [exists_error dst n] else [])).
  rewrite !error_events_app, IH.
  destruct (Py.mem n names); reflexivity.
Qed.

Lemma check_teams_outcome src dst repos (w w2 : W) src_rt t2 :
  find_teams_by_repos repos w = (Ok src_rt, w2, t2) ->
  exists tr,
    check_teams src dst repos w
    = (match conflicts w dst (find_used_teams src_rt) with
       | [] => Ok (find_used_teams src_rt)
       | _ :: _ => Raise (SystemExit 1)
       end, w, tr)
    /\ error_events tr
       = match conflicts w dst (find_used_teams src_rt) with
         | [] => []
         | _ :: _ =>
             map (exists_error dst)
               (conflicts w dst (find_used_teams src_rt))
             ++ [Log ERROR ("conflicting teams in " ++ login dst ++ ":")]
             ++ map conflict_error
                  (conflicts w dst (find_used_teams src_rt))
         end.
Proof.
  intros Hfind.
  assert (w2 = w)
    by exact (readonly_run _ _ _ _ _ (readonly_find_teams_by_repos repos) Hfind).
  subst w2.
  pose proof (emits_run _ _ _ _ _ _ (find_teams_by_repos_no_error repos) Hfind)
    as Hq. apply error_events_none in Hq.
  unfold conflicts.
  set (keys := Dict.keys (find_used_teams src_rt)).
  set (names := map Team.name (get_teams dst w)).
  assert (Hkeys : error_events
                    (map (fun t => Log DEBUG ("  '" ++ t ++ "'")%string) keys)
                  = []).
  { apply error_events_none, Forall_forall. intros e He.
    apply in_map_iff in He. destruct He as (x & <- & _). exact I. }
  destruct (filter (fun n => Py.mem n names) keys) as [|c cs] eqn:Ef.
  - eexists. split.
    + unfold check_teams.
      eapply bind_ok_eq; [reflexivity|].
      eapply bind_ok_eq; [exact Hfind|]. cbn zeta.
      eapply bind_ok_eq; [reflexivity|].
      eapply bind_ok_eq.
      { apply (for_each_emit _ _
                 (fun t => Log DEBUG ("  '" ++ t ++ "'")%string)).
        reflexivity. }
      eapply bind_ok_eq; [reflexivity|].
      eapply bind_ok_eq; [reflexivity|].
      eapply bind_ok_eq; [apply (conflict_loop dst)|].
      fold keys names. rewrite Ef. reflexivity.
    + unfold keys, names in *.
      rewrite !error_events_app, Hq, Hkeys, conflict_loop_errors, Ef.
      reflexivity.
  - eexists. split.
    + unfold check_teams.
      eapply bind_ok_eq; [reflexivity|].
      eapply bind_ok_eq; [exact Hfind|]. cbn zeta.
      eapply bind_ok_eq; [reflexivity|].
      eapply bind_ok_eq.
      { apply (for_each_emit _ _
                 (fun t => Log DEBUG ("  '" ++ t ++ "'")%string)).
        reflexivity. }
      eapply bind_ok_eq; [reflexivity|].
      eapply bind_ok_eq; [reflexivity|].
      eapply bind_ok_eq; [apply (conflict_loop dst)|].
      fold keys names. rewrite Ef. cbn [app].
      eapply bind_ok_eq; [reflexivity|].
      eapply bind_ok_eq; [|reflexivity].
      apply (for_each_emit _ _ conflict_error). reflexivity.
    + unfold keys, names in *.
      rewrite !error_events_app, Hq, Hkeys, conflict_loop_errors, Ef.
      rewrite error_events_conflicts. simpl. rewrite !app_nil_r.
      reflexivity.
Qed.

End ConflictCheck.

(** X12: once [find_teams_by_repos] has returned, the conflict check
    returns the team-usage index when no name of it is a team of the
    destination, printing no error; otherwise it exits with status 1
    after printing, for the conflicting names and only for them, in the
    order of the index, the "already exists" errors, then the header and
    the list of names.  It leaves the world as it is. *)
Theorem check_teams_reports_exactly_the_conflicts {W : Type} `{World W}
    (src dst : Organization) (src_repos : list Repository.t) (w w2 : W)
    (src_rt : Dict.t (Repository.t * list Team.t)) (t2 : list event) :
  find_teams_by_repos src_repos w = (Ok src_rt, w2, t2) ->
  exists tr,
    check_teams src dst src_repos w
    = (match conflicts w dst (find_used_teams src_rt) with
       | [] => Ok (find_used_teams src_rt)
       | _ :: _ => Raise (SystemExit 1)
       end, w, tr)
    /\ error_events tr
       = match conflicts w dst (find_used_teams src_rt) with
         | [] => []
         | _ :: _ =>
             map (exists_error dst)
               (conflicts w dst (find_used_teams src_rt))
             ++ [Log ERROR ("conflicting teams in " ++ login dst ++ ":")]
             ++ map conflict_error
                  (conflicts w dst (find_used_teams src_rt))
         end.
Proof. apply check_teams_outcome. Qed.

Lemma check_teams_reports_exactly_the_conflicts_witness :
  exists tr,
    check_teams Scenario.A Scenario.B [Scenario.x; Scenario.y]
      Scenario.github_with_t1
    = (Raise (SystemExit 1), Scenario.github_with_t1, tr)
    /\ error_events tr
       = [exists_error Scenario.B "t1";
          Log ERROR "conflicting teams in B:";
          conflict_error "t1"].
Proof.
  edestruct (check_teams_reports_exactly_the_conflicts Scenario.A Scenario.B
               [Scenario.x; Scenario.y] Scenario.github_with_t1)
    as (tr & E & Herr); [reflexivity|].
  exists tr. split; [exact E|exact Herr].
Defined.

(** *** The handler of [create_teams], past its first sub-error *)

Section Handler.

Context {W : Type} `{World W}.

Lemma handler_loop_raises (data : gh_data) (ignore_existing : bool)
    (pre rest : list (option string)) (msg : string) (w : W) :
  Forall (tolerated ignore_existing) pre ->
  ignore_existing && Py.contains "Name has already been taken" msg = false ->
  exists tr,
    for_each (pre ++ Some msg :: rest) (fun oops =>
      bind (item "message" oops) (fun msg =>
      bind (logf ERROR "    {m}" [("m", msg)]) (fun _ =>
        if negb (ignore_existing
                 && Py.contains "Name has already been taken" msg)
        then raise (GithubException data)
        else ret tt))) w
    = (Raise (GithubException data), w, tr)
    /\ api_calls tr = []
    /\ In (Log ERROR ("    " ++ msg)) tr.
Proof.
  intros Hpre Hmsg.
  induction Hpre as [|oops pre (m' & -> & Hm') _ (tr & IH & Hc & Hin)]; simpl.
  - eexists. split; [|split].
    + apply bind_raise. unfold bind, item, logf, bind. simpl.
      rewrite Hmsg, append_empty_r. reflexivity.
    + reflexivity.
    + now left.
  - eexists. split; [|split].
    + eapply bind_ok_eq; [|exact IH].
      unfold bind, item, logf, bind. simpl. rewrite Hm'. reflexivity.
    + rewrite api_calls_app, Hc. reflexivity.
    + apply in_or_app. now right.
Qed.

Lemma create_or_reuse_team_reraises org name repos with_repos
    ignore_existing dst_teams data m pre msg rest (w w1 : W) t1 :
  try_create_team org name repos with_repos w
  = (Raise (GithubException data), w1, t1) ->
  d_message data = Some m ->
  d_errors data = Some (pre ++ Some msg :: rest) ->
  Forall (tolerated ignore_existing) pre ->
  ignore_existing && Py.contains "Name has already been taken" msg = false ->
  exists tr,
    create_or_reuse_team org name repos with_repos ignore_existing
      dst_teams w
    = (Raise (GithubException data), w1, tr)
    /\ api_calls tr = api_calls t1
    /\ In (Log ERROR ("  " ++ m)) tr /\ In (Log ERROR ("    " ++ msg)) tr.
Proof.
  intros Etry Hm He Hpre Hmsg.
  destruct (handler_loop_raises data ignore_existing pre rest msg w1
              Hpre Hmsg) as (tl & Eloop & Hc & Hin).
  assert (Eexc : except_create_team org name ignore_existing data w1
                 = (Raise (GithubException data), w1,
                    [] ++ [Log ERROR ("  " ++ m)] ++ [] ++ tl)).
  { unfold except_create_team. rewrite Hm, He.
    eapply bind_ok_eq; [reflexivity|].
    eapply bind_ok_eq;
      [unfold logf, bind; simpl; rewrite append_empty_r; reflexivity|].
    eapply bind_ok_eq; [reflexivity|].
    apply bind_raise. exact Eloop. }
  eexists. split; [|split; [|split]].
  - unfold create_or_reuse_team. apply bind_raise.
    unfold try_except. rewrite Etry, Eexc. reflexivity.
  - rewrite !api_calls_app, Hc. simpl. now rewrite app_nil_r.
  - rewrite !in_app_iff. simpl. auto.
  - rewrite !in_app_iff. simpl. auto.
Qed.

Lemma create_or_reuse_team_created org name repos (with_repos : bool)
    ignore_existing dst_teams t (w w1 : W) :
  create_team org name
    (if with_repos then Some (qualified_names org repos) else None) w
  = (inr t, w1) ->
  exists tr,
    create_or_reuse_team org name repos with_repos ignore_existing
      dst_teams w
    = (Ok (Dict.set (Team.name t) t dst_teams), w1, tr)
    /\ api_calls tr
       = [CreateTeam org name
            (if with_repos then Some (qualified_names org repos)
             else None)].
Proof.
  intros E.
  assert (Hcall : forall rn, create_team org name rn w = (inr t, w1) ->
            call_create_team org name rn w
            = (Ok t, w1, [Call (CreateTeam org name rn)])).
  { intros rn Ern. unfold call_create_team. rewrite Ern. reflexivity. }
  assert (Hlogs : forall l : list string,
            api_calls (map (fun r => Log DEBUG ("    " ++ r)%string) l) = []).
  { induction l; simpl; auto. }
  assert (Etry : exists tr,
            try_create_team org name repos with_repos w = (Ok t, w1, tr) /\
            api_calls tr
            = [CreateTeam org name
                 (if with_repos then Some (qualified_names org repos)
                  else None)]).
  { unfold try_create_team. destruct with_repos.
    - eexists. split.
      + eapply bind_ok_eq; [reflexivity|].
        eapply bind_ok_eq; [|apply Hcall; exact E].
        apply (for_each_emit _ _ (fun r => Log DEBUG ("    " ++ r)%string)).
        intros x wx. unfold logf, bind. simpl. rewrite append_empty_r.
        reflexivity.
      + rewrite !api_calls_app, Hlogs. reflexivity.
    - eexists. split; [apply Hcall; exact E|reflexivity]. }
  destruct Etry as (tr & Etry & Hc).
  exists (tr ++ []). split.
  - unfold create_or_reuse_team. eapply bind_ok_eq; [|reflexivity].
    unfold try_except. rewrite Etry. reflexivity.
  - rewrite app_nil_r. exact Hc.
Qed.

End Handler.

(** X13: when the creation of a team fails and the error carries a
    message and a sub-error the handler does not tolerate (any sub-error
    for a caller who did not set [ignore_existing]; one that does not say
    the name is taken for a caller who did), after sub-errors it does
    tolerate, lines 130-153 end with the [GithubException] of the
    creation: both messages are printed, and no team is looked up. *)
Theorem untolerated_error_is_reraised {W : Type} `{World W}
    (org : Organization) (name : string) (repos : list Repository.t)
    (with_repos ignore_existing : bool) (dst_teams : Dict.t Team.t)
    (data : gh_data) (m msg : string) (pre rest : list (option string))
    (w w1 : W) (t1 : list event) :
  try_create_team org name repos with_repos w
  = (Raise (GithubException data), w1, t1) ->
  d_message data = Some m ->
  d_errors data = Some (pre ++ Some msg :: rest) ->
  Forall (tolerated ignore_existing) pre ->
  ignore_existing && Py.contains "Name has already been taken" msg = false ->
  exists tr,
    create_or_reuse_team org name repos with_repos ignore_existing
      dst_teams w
    = (Raise (GithubException data), w1, tr)
    /\ api_calls tr = api_calls t1
    /\ In (Log ERROR ("  " ++ m)) tr /\ In (Log ERROR ("    " ++ msg)) tr.
Proof. apply create_or_reuse_team_reraises. Qed.

Lemma untolerated_error_is_reraised_witness :
  exists tr,
    create_or_reuse_team Scenario.B "t1" [] false true Dict.empty
      Scenario.github_two_errors
    = (Raise (GithubException Scenario.two_errors),
       Scenario.github_two_errors, tr)
    /\ api_calls tr = [CreateTeam Scenario.B "t1" None]
    /\ In (Log ERROR "  Validation Failed") tr
    /\ In (Log ERROR "    Description is too long") tr.
Proof.
  refine (untolerated_error_is_reraised Scenario.B "t1" [] false true
            Dict.empty Scenario.two_errors "Validation Failed"
            "Description is too long" [Some "Name has already been taken"] []
            Scenario.github_two_errors Scenario.github_two_errors
            [Call (CreateTeam Scenario.B "t1" None)] _ _ _ _ _).
  - reflexivity.
  - reflexivity.
  - reflexivity.
  - constructor; [|constructor]. eexists. split; reflexivity.
  - reflexivity.
Defined.

(** X14: when GitHub creates the team, lines 130-153 make that one call
    and no other, store the team under the name GitHub gave it, and, with
    [with_repos], ask for it with the repositories named
    [org/repository] after the organisation the team is created in;
    without [with_repos] they name no repository. *)
Theorem created_team_is_stored {W : Type} `{World W}
    (org : Organization) (name : string) (repos : list Repository.t)
    (with_repos ignore_existing : bool) (dst_teams : Dict.t Team.t)
    (t : Team.t) (w w1 : W) :
  create_team org name
    (if with_repos then Some (qualified_names org repos) else None) w
  = (inr t, w1) ->
  exists tr,
    create_or_reuse_team org name repos with_repos ignore_existing
      dst_teams w
    = (Ok (Dict.set (Team.name t) t dst_teams), w1, tr)
    /\ api_calls tr
       = [CreateTeam org name
            (if with_repos then Some (qualified_names org repos)
             else None)].
Proof. apply create_or_reuse_team_created. Qed.

Lemma created_team_is_stored_witness :
  exists w1 tr,
    create_or_reuse_team Scenario.B "t1" [Scenario.x; Scenario.y] true false
      Dict.empty Scenario.forked
    = (Ok [("t1", Team.mk 3 "t1")], w1, tr)
    /\ api_calls tr = [CreateTeam Scenario.B "t1" (Some ["B/x"; "B/y"])].
Proof.
  eexists.
  refine (created_team_is_stored Scenario.B "t1" [Scenario.x; Scenario.y]
            true false Dict.empty (Team.mk 3 "t1") Scenario.forked _ _).
  reflexivity.
Defined.

(** *** [github_list_repos.py], without [--hide] *)

(** X15: without [--teams] the listing tool prints the name of every
    repository, in enumeration order, and ends normally; [--hide] has no
    effect, whatever its value and whatever the teams are. *)
Theorem names_only_without_teams (opt : ListRepos.Opt)
    (repos : list ListRepos.Repo) :
  ListRepos.teams opt = false ->
  ListRepos.main opt repos = (map ListRepos.name repos, Ok tt).
Proof.
  intros Ht. induction repos as [|r repos IH]; simpl; [reflexivity|].
  unfold ListRepos.print_repo. rewrite Ht, IH. reflexivity.
Qed.

Lemma names_only_without_teams_witness :
  ListRepos.teams (ListRepos.mk_opt "lsst" false (Some "t9")) = false /\
  ListRepos.main (ListRepos.mk_opt "lsst" false (Some "t9"))
    [ListRepos.mk_repo "x" ["t1"]; ListRepos.mk_repo "y" []]
  = (["x"; "y"], Ok tt).
Proof.
  split; [reflexivity|].
  apply (names_only_without_teams (ListRepos.mk_opt "lsst" false (Some "t9"))).
  reflexivity.
Defined.

(** X16: with [--teams] and no [--hide], or an empty one, the listing
    tool prints for every repository, in enumeration order, its name,
    [" : "] and its team names joined by tabs, all of them, and ends
    normally. *)
Theorem all_teams_without_hide (opt : ListRepos.Opt)
    (repos : list ListRepos.Repo) :
  ListRepos.teams opt = true ->
  ListRepos.hide opt = None \/ ListRepos.hide opt = Some EmptyString ->
  ListRepos.main opt repos
  = (map (fun r => (ListRepos.name r ++ " : "
                    ++ Py.join ListRepos.tab (ListRepos.iter_teams r))%string)
       repos, Ok tt).
Proof.
  intros Ht Hh. induction repos as [|r repos IH]; simpl; [reflexivity|].
  unfold ListRepos.print_repo. rewrite Ht, IH.
  destruct Hh as [-> | ->]; reflexivity.
Qed.

Lemma all_teams_without_hide_witness :
  ListRepos.main (ListRepos.mk_opt "lsst" true None)
    [ListRepos.mk_repo "x" ["t1"; "t2"]; ListRepos.mk_repo "y" []]
  = ([("x : t1" ++ ListRepos.tab ++ "t2")%string; "y : "], Ok tt).
Proof.
  apply (all_teams_without_hide (ListRepos.mk_opt "lsst" true None));
    [reflexivity | left; reflexivity].
Defined.

(** *** [main]: a limit below zero, and the end of a [--copy-teams] run *)

Section MainEnds.

Context {W : Type} `{World W}.

Lemma main_select_raises args (w w0 w1 : W) src dst t0 e t1 :
  open_orgs args w = (Ok (src, dst), w0, t0) ->
  select_repos args src w0 = (Raise e, w1, t1) ->
  main args w = (Raise e, w, t0 ++ t1) /\ no_request (t0 ++ t1).
Proof.
  intros Hopen Hsel.
  assert (w0 = w)
    by exact (readonly_run _ _ _ _ _ (readonly_open_orgs args) Hopen).
  subst w0.
  assert (w1 = w)
    by exact (readonly_run _ _ _ _ _ (readonly_select_repos args src) Hsel).
  subst w1. split.
  - unfold main. eapply bind_ok_eq; [exact Hopen|]. cbn beta iota.
    now apply bind_raise.
  - apply stage_select_no_request, Forall_app. split.
    + exact (emits_run _ _ _ _ _ _ (emits_open_orgs args) Hopen).
    + exact (emits_run _ _ _ _ _ _ (emits_select_repos args src) Hsel).
Qed.

Lemma fork_selection_copies args src dst repos (w w2 wf : W)
    src_teams tc tf :
  copy_teams args = true ->
  check_teams src dst repos w = (Ok src_teams, w2, tc) ->
  create_forks dst repos w2 = (Ok tt, wf, tf) ->
  fork_selection args src dst repos w
  = (match src_teams with
     | [] => Ok tt
     | _ :: _ => Raise (KeyError "o")
     end, wf,
     tc ++ [Log DEBUG "there is no spoon..."] ++ tf
     ++ [Log DEBUG ("creating teams in " ++ login dst)]).
Proof.
  intros Hc Echeck Ef. unfold fork_selection. rewrite Hc.
  eapply bind_ok_eq; [exact Echeck|].
  eapply bind_ok_eq; [reflexivity|].
  eapply bind_ok_eq; [exact Ef|].
  destruct src_teams as [|[name repos'] teams].
  - unfold bind, create_teams, logf, bind. simpl.
    rewrite append_empty_r. reflexivity.
  - apply bind_raise, create_teams_KeyError.
Qed.

End MainEnds.

(** X17: with a [--limit] below zero, a run that opens its organisations
    and finds its repositories ends with the [ValueError] of [islice]
    (exit status 1) before any fork or team is asked for, the world as it
    was. *)
Theorem negative_limit_aborts {W : Type} `{World W}
    (args : Args) (N : Z) (w w0 w1 : W) (src dst : Organization)
    (found : list Repository.t) (t0 t1 : list event) :
  limit args = Some N -> (N < 0)%Z ->
  open_orgs args w = (Ok (src, dst), w0, t0) ->
  find_repos args src w0 = (Ok found, w1, t1) ->
  exists msg tr,
    main args w = (Raise (ValueError msg), w, tr) /\
    exit_status (fst (fst (main args w))) = 1%Z /\
    no_request tr.
Proof.
  intros Hlim HN Hopen Hfind.
  assert (Hsel : exists msg,
            select_repos args src w0 = (Raise (ValueError msg), w1, t1 ++ [])).
  { eexists. unfold select_repos. eapply bind_ok_eq; [exact Hfind|].
    rewrite Hlim. unfold Py.islice.
    apply Z.leb_gt in HN. rewrite HN. reflexivity. }
  destruct Hsel as (msg & Hsel).
  destruct (main_select_raises args w w0 w1 src dst t0 _ _ Hopen Hsel)
    as [E Hq].
  exists msg. eexists. split; [exact E|]. rewrite E. auto.
Qed.

Lemma negative_limit_aborts_witness :
  exists msg tr,
    main (mk_args "A" "B" ["t1"] (Some (-3)%Z) true) Scenario.github
    = (Raise (ValueError msg), Scenario.github, tr) /\
    exit_status (fst (fst (main (mk_args "A" "B" ["t1"] (Some (-3)%Z) true)
                             Scenario.github))) = 1%Z /\
    no_request tr.
Proof.
  refine (negative_limit_aborts (mk_args "A" "B" ["t1"] (Some (-3)%Z) true)
            (-3) Scenario.github _ _ _ _ _ _ _ _ _ _ _); reflexivity.
Defined.

(** X18: under [--copy-teams], a run that passes the conflict check and
    obtains every fork ends in [create_teams]: normally when the
    team-usage index is empty, with [KeyError] (exit status 1) as soon
    as it holds one team; the forks asked for are the selection, and no
    team is asked for either way. *)
Theorem copy_teams_run_ends_in_create_teams {W : Type} `{World W}
    (args : Args) (w w0 w1 w2 wf : W) (src dst : Organization)
    (repos : list Repository.t) (src_teams : Dict.t (list Repository.t))
    (t0 t1 tc tf : list event) :
  copy_teams args = true ->
  open_orgs args w = (Ok (src, dst), w0, t0) ->
  select_repos args src w0 = (Ok repos, w1, t1) ->
  repos <> [] ->
  check_teams src dst repos w1 = (Ok src_teams, w2, tc) ->
  create_forks dst repos w2 = (Ok tt, wf, tf) ->
  exists tr,
    main args w
    = (match src_teams with
       | [] => Ok tt
       | _ :: _ => Raise (KeyError "o")
       end, wf, tr) /\
    fork_requests tr = repos /\
    Forall (fun e => ~ is_team_request e) tr.
Proof.
  intros Hcopy Hopen Hsel Hne Echeck Ef.
  pose proof (fork_selection_copies args src dst repos w1 w2 wf src_teams
                tc tf Hcopy Echeck Ef) as Erest.
  destruct (main_selected_calls args w w0 w1 src dst t0 repos t1 _ _ _
              Hopen Hsel Hne Erest) as (pre & Emain & _ & Hpre).
  destruct (main_selected args w w0 w1 src dst t0 repos t1 _ _ _
              Hopen Hsel Hne Erest) as (pre' & Hsel' & Emain').
  assert (pre' = pre).
  { rewrite Emain in Emain'. injection Emain' as Eapp.
    now apply app_inv_tail in Eapp. }
  subst pre'.
  pose proof (check_teams_is_quiet src dst repos w1) as Qc.
  rewrite Echeck in Qc. simpl in Qc.
  pose proof (create_forks_observed dst repos w2) as Hobs.
  rewrite Ef in Hobs. simpl in Hobs. destruct Hobs as [Hreq _].
  pose proof (create_forks_asks_no_team dst repos w2) as Qf.
  rewrite Ef in Qf. simpl in Qf.
  eexists. split; [exact Emain|]. split.
  - rewrite !fork_requests_app, Hpre, Hreq.
    rewrite (no_fork_requests tc);
      [simpl; now rewrite app_nil_r|].
    eapply Forall_impl; [|exact Qc]. simpl. tauto.
  - repeat (apply Forall_app; split).
    + eapply Forall_impl; [|exact Hsel']. intros e He.
      now apply select_is_quiet.
    + eapply Forall_impl; [|exact Qc]. simpl. tauto.
    + repeat constructor. simpl. tauto.
    + exact Qf.
    + repeat constructor. simpl. tauto.
Qed.

Lemma copy_teams_run_ends_in_create_teams_witness :
  exists tr,
    main (Scenario.args true) Scenario.github
    = (Raise (KeyError "o"), Scenario.forked, tr) /\
    fork_requests tr = [Scenario.x; Scenario.y] /\
    Forall (fun e => ~ is_team_request e) tr.
Proof.
  edestruct (copy_teams_run_ends_in_create_teams (Scenario.args true)
               Scenario.github) as (tr & E & Hreq & Hq).
  - reflexivity.
  - reflexivity.
  - reflexivity.
  - discriminate.
  - reflexivity.
  - reflexivity.
  - exists tr. split; [exact E|]. split; [exact Hreq|exact Hq].
Defined.
